(** * Diagnosticador-Seois: the domain analysis pipeline

    A shallow embedding of the parts of the pipeline that the specification
    makes promises about, followed by the theorems that settle them:

    - [app/config.py]            [ScoringWeights.normalize_weights],
                                 [Settings.update_scoring_weights]
    - [app/services/scorer.py]   [KeywordScorer]: scoring, bucketing and the
                                 top keywords of a domain
    - [app/services/nlp.py]      [NLPService]: extraction, fusion, deduplication
    - [app/services/sitemap.py]  [SitemapService]: discovery, relevance and
                                 URL selection
    - [app/services/fetcher.py]  [HTTPFetcher.fetch_url], [_rate_limit]
    - [app/main.py]              [analyze_domain], [process_url],
                                 [_create_domain_summary]

    Conventions of the embedding.
    - A Python [str] is a list of code points ([pystr]); literals are written
      as Rocq strings and decoded from UTF-8 by [py].
    - A Python [float] is a rational ([Q]): the theorems speak about the
      arithmetic the code writes down, not about binary rounding.
    - A [try ... except Exception] block is a computation in [option]
      ([None] is a raised exception) followed by the handler.
    - What the interpreter or a third-party package provides ([str.lower],
      the regex class [\d], the embedding model, the two keyword providers)
      is a parameter of the development. *)

From Stdlib Require Import ZArith NArith QArith Qabs String Ascii Lia Lqa.
From Stdlib Require Import Permutation Sorted.
From stdpp Require Import base option list gmap sets.

Set Default Proof Using "Type".
Set Warnings "-clear-no-such-hyp".

(* ===================================================================== *)
(** * Part I: definitions                                                 *)
(* ===================================================================== *)

(** ** Python values *)

Module Py.

(** A [str] is a sequence of Unicode code points. *)
Definition pystr := list N.

(** UTF-8 decoding of the bytes of a literal. [need] continuation bytes are
    still expected for the code point accumulated in [acc]. *)
Fixpoint utf8_go (bs : list N) (need : nat) (acc : N) : pystr :=
  match bs with
  | [] => []
  | b :: bs' =>
      match need with
      | S k =>
          let acc' := (acc * 64 + b mod 64)%N in
          match k with
          | O => acc' :: utf8_go bs' 0 0%N
          | S _ => utf8_go bs' k acc'
          end
      | O =>
          if (b <? 128)%N then b :: utf8_go bs' 0 0%N
          else if (b <? 224)%N then utf8_go bs' 1 (b mod 32)%N
          else if (b <? 240)%N then utf8_go bs' 2 (b mod 16)%N
          else utf8_go bs' 3 (b mod 8)%N
      end
  end.

Fixpoint bytes_of (s : string) : list N :=
  match s with
  | EmptyString => []
  | String c s' => N_of_ascii c :: bytes_of s'
  end.

Definition py (s : string) : pystr := utf8_go (bytes_of s) 0 0%N.

(** Truthiness of a string: [if s:] / [not s]. *)
Definition truthy (s : pystr) : bool :=
  match s with [] => false | _ :: _ => true end.

Definition str_eqb (a b : pystr) : bool := bool_decide (a = b).

Fixpoint startswith (s p : pystr) : bool :=
  match p, s with
  | [], _ => true
  | _ :: _, [] => false
  | c :: p', d :: s' => (c =? d)%N && startswith s' p'
  end.

(** [sub in s]: [sub] occurs in [s] as a contiguous run. *)
Fixpoint contains (s sub : pystr) : bool :=
  startswith s sub ||
  match s with
  | [] => false
  | _ :: s' => contains s' sub
  end.

(** [s.find(sub)]: the lowest offset of an occurrence, [None] for -1. *)
Fixpoint find (s sub : pystr) : option nat :=
  if startswith s sub then Some 0%nat
  else match s with
       | [] => None
       | _ :: s' => S <$> find s' sub
       end.

(** [s.count(c)] for a one-character [c]. *)
Definition count_char (s : pystr) (c : N) : nat :=
  length (List.filter (N.eqb c) s).

(** The characters [str.isspace] accepts; [str.split()] and [str.strip()]
    without arguments separate and trim on exactly these. *)
Definition isspace (c : N) : bool :=
  ((9 <=? c) && (c <=? 13) || (28 <=? c) && (c <=? 32)
   || (c =? 133) || (c =? 160) || (c =? 5760)
   || (8192 <=? c) && (c <=? 8202)
   || (c =? 8232) || (c =? 8233) || (c =? 8239) || (c =? 8287)
   || (c =? 12288))%N.

Fixpoint lstrip (s : pystr) : pystr :=
  match s with
  | c :: s' => if isspace c then lstrip s' else s
  | [] => []
  end.

Definition strip (s : pystr) : pystr := rev (lstrip (rev (lstrip s))).

(** [s.split()]: maximal runs of non-space characters. [cur] is the word
    being read, reversed. *)
Fixpoint split_go (s : pystr) (cur : pystr) : list pystr :=
  match s with
  | [] => match cur with [] => [] | _ => [rev cur] end
  | c :: s' =>
      if isspace c
      then match cur with [] => split_go s' [] | _ => rev cur :: split_go s' [] end
      else split_go s' (c :: cur)
  end.

Definition split (s : pystr) : list pystr := split_go s [].

(** [sep.join(parts)]. *)
Fixpoint join (sep : pystr) (parts : list pystr) : pystr :=
  match parts with
  | [] => []
  | [p] => p
  | p :: ps => p ++ sep ++ join sep ps
  end.

(** [s.replace(old, new)] for a non-empty [old]: non-overlapping
    occurrences, left to right. The fuel is the length of [s]. *)
Fixpoint replace_go (fuel : nat) (s old new : pystr) : pystr :=
  match fuel with
  | O => s
  | S fuel' =>
      match s with
      | [] => []
      | c :: s' =>
          if startswith s old
          then new ++ replace_go fuel' (drop (length old) s) old new
          else c :: replace_go fuel' s' old new
      end
  end.

Definition replace (s old new : pystr) : pystr :=
  replace_go (length s) s old new.

(** [s.split(sep)[0]]: everything before the first occurrence of [sep]. *)
Definition before_first (s sep : pystr) : pystr :=
  match find s sep with
  | Some i => take i s
  | None => s
  end.

(** What the interpreter supplies and the code only calls. *)
Class Runtime := {
  (** [str.lower] *)
  str_lower : pystr -> pystr;
  (** the regex class [\d] on [str] patterns (Unicode category Nd) *)
  re_digit : N -> bool;
}.

(** The restriction of the interpreter's tables to ASCII, used to evaluate
    the code on ASCII inputs, where it agrees with CPython. *)
Definition ascii_lower_char (c : N) : N :=
  if ((65 <=? c) && (c <=? 90))%N then (c + 32)%N else c.

Definition ascii_runtime : Runtime := {|
  str_lower := map ascii_lower_char;
  re_digit := fun c => ((48 <=? c) && (c <=? 57))%N;
|}.

(** Floats are rationals; [a < b] and [a <= b] as the tests the code makes. *)
Definition Qltb (a b : Q) : bool := negb (Qle_bool b a).
Definition Qleb (a b : Q) : bool := Qle_bool a b.

(** The builtins [max(a, b)] and [min(a, b)]: the first argument is kept
    unless the second is strictly larger (smaller). *)
Definition pymax (a b : Q) : Q := if Qltb a b then b else a.
Definition pymin (a b : Q) : Q := if Qltb b a then b else a.

(** [a / b]: [None] is [ZeroDivisionError]. *)
Definition py_div (a b : Q) : option Q :=
  if Qeq_bool b 0 then None else Some (a / b)%Q.

(** [list.sort(key=..., reverse=True)]: stable, descending. [x] is placed
    before the first element whose key is not larger than its own, so equal
    keys keep the order they had. [ltb a b] is [key a < key b]. *)
Section Sort.
Context {A : Type} (ltb : A -> A -> bool).

Fixpoint insert_desc (x : A) (l : list A) : list A :=
match l with
| [] => [x]
| y :: l' => if ltb x y then y :: insert_desc x l' else x :: l
end.

Fixpoint sort_desc (l : list A) : list A :=
match l with
| [] => []
| x :: l' => insert_desc x (sort_desc l')
end.
End Sort.

End Py.

Import Py.

(** ** app/config.py *)

Module Config.

Record ScoringWeights := {
  w1_frequency : Q;
  w2_tfidf : Q;
  w3_cooccurrence : Q;
  w4_position_title : Q;
  w5_similarity_brand : Q;
}.

(** The defaults of the five fields. *)
Definition default_weights : ScoringWeights := {|
  w1_frequency := 0.3;
  w2_tfidf := 0.25;
  w3_cooccurrence := 0.2;
  w4_position_title := 0.15;
  w5_similarity_brand := 0.1;
|}.

(** [Field(ge=0, le=1)] on every component. *)
Definition field_ok (x : Q) : Prop := (0 <= x /\ x <= 1)%Q.

Definition valid_weights (w : ScoringWeights) : Prop :=
  field_ok (w1_frequency w) /\ field_ok (w2_tfidf w) /\
  field_ok (w3_cooccurrence w) /\ field_ok (w4_position_title w) /\
  field_ok (w5_similarity_brand w).

Definition components (w : ScoringWeights) : list Q :=
  [w1_frequency w; w2_tfidf w; w3_cooccurrence w;
   w4_position_title w; w5_similarity_brand w].

(** The builtin [sum]: a left fold from 0. *)
Definition pysum (l : list Q) : Q := fold_left Qplus l 0%Q.

(** [normalize_weights], over the division [div] it uses for [/=]. The
    object is updated in place; the model returns the updated object, and
    [None] would be an exception raised by a division. *)
Definition normalize_weights_with (div : Q -> Q -> option Q)
    (w : ScoringWeights) : option ScoringWeights :=
  let total := pysum (components w) in
  if Qltb 0 total then
    a1 ← div (w1_frequency w) total;
    a2 ← div (w2_tfidf w) total;
    a3 ← div (w3_cooccurrence w) total;
    a4 ← div (w4_position_title w) total;
    a5 ← div (w5_similarity_brand w) total;
    Some {| w1_frequency := a1; w2_tfidf := a2; w3_cooccurrence := a3;
            w4_position_title := a4; w5_similarity_brand := a5 |}
  else Some w.

Definition normalize_weights : ScoringWeights -> option ScoringWeights :=
  normalize_weights_with py_div.

(** A division that always raises: a call that still returns has not
    divided. *)
Definition no_division (a b : Q) : option Q := None.

(** The object after the five divisions by [total]. *)
Definition scaled (w : ScoringWeights) (total : Q) : ScoringWeights :=
  {| w1_frequency := w1_frequency w / total;
     w2_tfidf := w2_tfidf w / total;
     w3_cooccurrence := w3_cooccurrence w / total;
     w4_position_title := w4_position_title w / total;
     w5_similarity_brand := w5_similarity_brand w / total |}.

Definition all_zero (w : ScoringWeights) : Prop :=
  (w1_frequency w == 0 /\ w2_tfidf w == 0 /\ w3_cooccurrence w == 0 /\
   w4_position_title w == 0 /\ w5_similarity_brand w == 0)%Q.

Definition some_positive (w : ScoringWeights) : Prop :=
  (0 < w1_frequency w \/ 0 < w2_tfidf w \/ 0 < w3_cooccurrence w \/
   0 < w4_position_title w \/ 0 < w5_similarity_brand w)%Q.

Definition zero_weights : ScoringWeights := {|
  w1_frequency := 0; w2_tfidf := 0; w3_cooccurrence := 0;
  w4_position_title := 0; w5_similarity_brand := 0;
|}.

End Config.

(** ** app/services/scorer.py *)

Module Scorer.
Import Config.

(** A scored keyword, [{'term': ..., 'score': ...}]. *)
Record KeywordScore := {
  term : pystr;
  score : Q;
}.

(** [brand_info]: the values under ['name'] and ['domain']. [None] is the
    Python [None] that [extract_brand_info] starts both entries with. *)
Record BrandInfo := {
  name : option pystr;
  domain : option pystr;
}.

(** The [meta] dictionary: the parser stores [None] when the page has no
    title or description. *)
Record Meta := {
  title : option pystr;
  description : option pystr;
}.

Record Headings := {
  h1 : list pystr;
  h2 : list pystr;
  h3 : list pystr;
}.

Record TextData := {
  main_content : pystr;
  meta : Meta;
  headings : Headings;
}.

Inductive bucket := cliente | producto_o_post | generales_seo.

#[export] Instance bucket_eq_dec : EqDecision bucket.
Proof. solve_decision. Defined.

(** The dictionary of the three bucket lists. *)
Record Buckets := {
  b_cliente : list KeywordScore;
  b_producto_o_post : list KeywordScore;
  b_generales_seo : list KeywordScore;
}.

Definition get_bucket (bs : Buckets) (b : bucket) : list KeywordScore :=
  match b with
  | cliente => b_cliente bs
  | producto_o_post => b_producto_o_post bs
  | generales_seo => b_generales_seo bs
  end.

Definition empty_buckets : Buckets :=
  {| b_cliente := []; b_producto_o_post := []; b_generales_seo := [] |}.

(** [buckets[b].append(kw)] *)
Definition bucket_append (bs : Buckets) (b : bucket) (kw : KeywordScore) : Buckets :=
  match b with
  | cliente =>
      {| b_cliente := b_cliente bs ++ [kw];
         b_producto_o_post := b_producto_o_post bs;
         b_generales_seo := b_generales_seo bs |}
  | producto_o_post =>
      {| b_cliente := b_cliente bs;
         b_producto_o_post := b_producto_o_post bs ++ [kw];
         b_generales_seo := b_generales_seo bs |}
  | generales_seo =>
      {| b_cliente := b_cliente bs;
         b_producto_o_post := b_producto_o_post bs;
         b_generales_seo := b_generales_seo bs ++ [kw] |}
  end.

Definition product_keywords : list pystr :=
  py <$> ["precio"; "comprar"; "oferta"; "descuento"; "envío"; "entrega";
          "talla"; "color"; "marca"; "modelo"; "especificaciones"]%string.

Definition blog_keywords : list pystr :=
  py <$> ["tutorial"; "guía"; "cómo"; "paso"; "método"; "técnica";
          "ejemplo"; "caso"; "experiencia"; "opinión"; "review"]%string.

(** [domain_keywords and keyword in domain_keywords]: a dictionary that is
    neither [None] nor empty and has the key. *)
Definition in_domain_keywords (domain_keywords : option (gmap pystr Q))
    (keyword : pystr) : bool :=
  match domain_keywords with
  | None => false
  | Some d => negb (bool_decide (d = ∅)) && bool_decide (is_Some (d !! keyword))
  end.

(** The cap on every bucket. *)
Definition bucket_cap : nat := 30.

Section WithRuntime.
Context `{Runtime}.

(** The [try] block of [_classify_keyword_bucket]. [.lower()] on a [None]
brand entry raises. *)
Definition classify_body (keyword : pystr) (score : Q) (page_type : pystr)
(brand_info : BrandInfo) (domain_keywords : option (gmap pystr Q))
: option bucket :=
let keyword_lower := str_lower keyword in
brand_name ← str_lower <$> name brand_info;
brand_domain ← str_lower <$> domain brand_info;
if truthy brand_name &&
(str_eqb keyword_lower brand_name || contains brand_name keyword_lower
|| contains keyword_lower brand_name)
then Some cliente
else if truthy brand_domain && contains brand_domain keyword_lower
then Some cliente
else if in_domain_keywords domain_keywords keyword &&
Qltb 0.1 (default 0%Q (domain_keywords ≫= (.!! keyword)))
then Some cliente
else if str_eqb page_type (py "ecommerce") then
if existsb (fun pk => contains keyword_lower pk) product_keywords
then Some producto_o_post
else if in_domain_keywords domain_keywords keyword
then Some generales_seo
else Some producto_o_post
else if str_eqb page_type (py "blog") then
if existsb (fun bk => contains keyword_lower bk) blog_keywords
then Some producto_o_post
else if in_domain_keywords domain_keywords keyword
then Some generales_seo
else Some producto_o_post
else
if in_domain_keywords domain_keywords keyword
then Some generales_seo
else Some producto_o_post.

(** [_classify_keyword_bucket]: the handler answers ['generales_seo']. *)
Definition _classify_keyword_bucket (keyword : pystr) (score : Q)
(page_type : pystr) (brand_info : BrandInfo)
(domain_keywords : option (gmap pystr Q)) : bucket :=
default generales_seo
(classify_body keyword score page_type brand_info domain_keywords).

(** The loop of [bucketize_keywords] over the input list. *)
Definition classify_all (keywords : list KeywordScore) (page_type : pystr)
(brand_info : BrandInfo) (domain_keywords : option (gmap pystr Q))
: Buckets :=
fold_left
(fun buckets keyword_data =>
let keyword := term keyword_data in
let score := score keyword_data in
let bucket :=
_classify_keyword_bucket keyword score page_type brand_info
domain_keywords in
bucket_append buckets bucket {| term := keyword; score := score |})
keywords empty_buckets.

(** [sort(key=lambda x: x['score'], reverse=True)] and [[:30]]. *)
Definition sort_and_cap (l : list KeywordScore) : list KeywordScore :=
take bucket_cap (sort_desc (fun a b => Qltb (score a) (score b)) l).

(** [bucketize_keywords]. With typed keyword records nothing in the [try]
block raises, so the handler that answers three empty buckets is not
reached. *)
Definition bucketize_keywords (keywords : list KeywordScore)
(page_type : pystr) (brand_info : BrandInfo)
(domain_keywords : option (gmap pystr Q)) : Buckets :=
let buckets := classify_all keywords page_type brand_info domain_keywords in
{| b_cliente := sort_and_cap (b_cliente buckets);
b_producto_o_post := sort_and_cap (b_producto_o_post buckets);
b_generales_seo := sort_and_cap (b_generales_seo buckets) |}.

End WithRuntime.

(** The terms of a bucket. *)
Definition terms (l : list KeywordScore) : list pystr := term <$> l.

(** The three buckets are pairwise disjoint and their union is the set of
    the input terms: every input term is in some bucket, every bucket term
    is an input term, and no term is in two buckets. *)
Definition partitions (out : Buckets) (keywords : list KeywordScore) : Prop :=
  (forall t, In t (terms keywords) <-> exists b, In t (terms (get_bucket out b)))
  /\ (forall t b1 b2,
        In t (terms (get_bucket out b1)) -> In t (terms (get_bucket out b2)) ->
        b1 = b2).

(** A page with no detected brand: both entries are empty strings. *)
Definition no_brand : BrandInfo := {| name := Some []; domain := Some [] |}.

(** Keywords [kw00], [kw01], ..., one per index below [n], all scored 0.5. *)
Definition numbered_keyword (i : nat) : KeywordScore :=
  {| term := py "kw" ++ [N.of_nat (48 + i / 10); N.of_nat (48 + i mod 10)];
     score := 0.5 |}.

Definition numbered_keywords (n : nat) : list KeywordScore :=
  numbered_keyword <$> seq 0 n.

(** A page and a brand to evaluate the scorer on. *)
Definition sample_text_data : TextData := {|
  main_content := py "Laptop gaming con envio gratis";
  meta := {| title := Some (py "Best laptop deals"); description := None |};
  headings := {| h1 := [py "Laptop"]; h2 := []; h3 := [] |};
|}.

Definition sample_brand : BrandInfo :=
  {| name := None; domain := Some (py "example.com") |}.

(** *** Scoring *)

Section Scoring.
Context `{Runtime}.

(** Collaborators of the scorer. [None] is an exception raised by the
call. *)
(** [TextUtils.normalize_text] and [TextUtils.tokenize_text] *)
Variable normalize_text : pystr -> option pystr.
Variable tokenize_text : pystr -> option (list pystr).
(** [NLPService.calculate_tfidf_scores(keywords, corpus)] *)
Variable calculate_tfidf_scores :
list pystr -> list pystr -> option (gmap pystr Q).
(** [np.log] *)
Variable np_log : Q -> Q.
(** [settings.scoring_weights] *)
Variable settings_scoring_weights : ScoringWeights.

(** How an f-string renders a value that may be [None]. *)
Definition fmt (x : option pystr) : pystr := default (py "None") x.

(** [x or ''] as a truth test: [None] and [''] are both false. *)
Definition truthy_opt (x : option pystr) : bool :=
match x with Some s => truthy s | None => false end.

(** [try: body except Exception: return 0.0] *)
Definition or_zero (body : option Q) : Q := default 0%Q body.

(** [tokens[i:i+k] == kt] counted over [i in range(len(tokens) - k + 1)] *)
Definition count_windows (tokens kt : list pystr) : nat :=
length
(List.filter
(fun i => bool_decide (take (length kt) (drop i tokens) = kt))
(seq 0 (length tokens + 1 - length kt))).

Definition frequency_body (keyword : pystr) (text_data : TextData)
: option Q :=
let all_text :=
main_content text_data ++ py " " ++ fmt (title (meta text_data))
++ py " " ++ fmt (description (meta text_data)) in
let hs := headings text_data in
let all_text :=
fold_left (fun acc heading_list => acc ++ py " " ++ join (py " ") heading_list)
[h1 hs; h2 hs; h3 hs] all_text in
normalized_text ← normalize_text all_text;
tokens ← tokenize_text normalized_text;
match tokens with
| [] => Some 0%Q
| _ :: _ =>
let keyword_lower := str_lower keyword in
let keyword_tokens := split keyword_lower in
let count :=
if (length keyword_tokens =? 1)%nat
then length (List.filter (str_eqb keyword_lower) tokens)
else count_windows tokens keyword_tokens in
let total_words := length tokens in
frequency ←
(if (0 <? total_words)%nat
then py_div (inject_Z (Z.of_nat count)) (inject_Z (Z.of_nat total_words))
else Some 0%Q);
if Qltb 0 frequency
then Some (pymin 1 (np_log (1 + frequency * 100)))
else Some 0%Q
end.

Definition _calculate_frequency_score keyword text_data : Q :=
or_zero (frequency_body keyword text_data).

Definition tfidf_body (keyword : pystr) (text_data : TextData) : option Q :=
let document :=
main_content text_data ++ py " " ++ fmt (title (meta text_data))
++ py " " ++ fmt (description (meta text_data)) in
tfidf_scores ← calculate_tfidf_scores [keyword] [document];
Some (default 0%Q (tfidf_scores !! keyword)).

Definition _calculate_tfidf_score keyword text_data : Q :=
or_zero (tfidf_body keyword text_data).

Definition cooccurrence_body (keyword : pystr) (text_data : TextData)
: option Q :=
let hs := headings text_data in
let important_text :=
(match title (meta text_data) with
| Some t => if truthy t then [t] else []
| None => []
end) ++ h1 hs ++ take 3 (h2 hs) in
let keyword_lower := str_lower keyword in
let '(cooccurrence_count, total_important_text) :=
fold_left
(fun '(c, t) text =>
if truthy text then
let text_lower := str_lower text in
(if contains text_lower keyword_lower then S c else c,
t + length (split text_lower))%nat
else (c, t))
important_text (0%nat, 0%nat) in
if (total_important_text =? 0)%nat then Some 0%Q
else
cooccurrence_score ←
(match important_text with
| [] => Some 0%Q
| _ :: _ =>
py_div (inject_Z (Z.of_nat cooccurrence_count))
(inject_Z (Z.of_nat (length important_text)))
end);
Some (pymin 1 cooccurrence_score).

Definition _calculate_cooccurrence_score keyword text_data : Q :=
or_zero (cooccurrence_body keyword text_data).

Definition position_body (keyword : pystr) (text_data : TextData)
: option Q :=
match title (meta text_data) with
| None => Some 0%Q
| Some title =>
if negb (truthy title) then Some 0%Q
else
let title_lower := str_lower title in
let keyword_lower := str_lower keyword in
match find title_lower keyword_lower with
| None => Some 0%Q
| Some keyword_pos =>
let title_length := length title_lower in
if (title_length =? 0)%nat then Some 0%Q
else
position_ratio ←
py_div (inject_Z (Z.of_nat keyword_pos))
(inject_Z (Z.of_nat title_length));
Some (pymax 0 (1 - position_ratio))
end
end.

Definition _calculate_position_score keyword text_data : Q :=
or_zero (position_body keyword text_data).

Definition similarity_body (keyword : pystr) (brand_info : BrandInfo)
: option Q :=
let brand_name := name brand_info in
let brand_domain := domain brand_info in
if negb (truthy_opt brand_name) && negb (truthy_opt brand_domain)
then Some 0%Q
else
let keyword_lower := str_lower keyword in
let brand_similarity :=
match brand_name with
| Some bn =>
if truthy bn then
let brand_lower := str_lower bn in
if str_eqb keyword_lower brand_lower then 1%Q
else if contains brand_lower keyword_lower
|| contains keyword_lower brand_lower then 0.7%Q
else if existsb (fun word => contains keyword_lower word)
(split brand_lower) then 0.5%Q
else 0%Q
else 0%Q
| None => 0%Q
end in
let domain_similarity :=
match brand_domain with
| Some bd =>
if truthy bd then
let domain_name := before_first (replace bd (py "www.") []) (py ".") in
let domain_lower := str_lower domain_name in
if str_eqb keyword_lower domain_lower then 0.8%Q
else if contains domain_lower keyword_lower
|| contains keyword_lower domain_lower then 0.6%Q
else 0%Q
else 0%Q
| None => 0%Q
end in
Some (pymax brand_similarity domain_similarity).

Definition _calculate_similarity_score keyword brand_info : Q :=
or_zero (similarity_body keyword brand_info).

(** The weighted sum of the five factors. *)
Definition weighted_sum (weights : ScoringWeights)
(freq_score tfidf_score cooccurrence_score position_score
similarity_score : Q) : Q :=
(w1_frequency weights * freq_score +
w2_tfidf weights * tfidf_score +
w3_cooccurrence weights * cooccurrence_score +
w4_position_title weights * position_score +
w5_similarity_brand weights * similarity_score)%Q.

(** [max(0.0, min(1.0, x))] *)
Definition clamp01 (x : Q) : Q := pymax 0 (pymin 1 x).

(** [calculate_keyword_score]. [weights = None] selects the configured
weights. The five helpers are total, so the outer handler that
answers 0.0 is not reached from typed inputs. *)
Definition calculate_keyword_score (keyword : pystr) (text_data : TextData)
(brand_info : BrandInfo) (weights : option ScoringWeights) : Q :=
let weights := default settings_scoring_weights weights in
let freq_score := _calculate_frequency_score keyword text_data in
let tfidf_score := _calculate_tfidf_score keyword text_data in
let cooccurrence_score := _calculate_cooccurrence_score keyword text_data in
let position_score := _calculate_position_score keyword text_data in
let similarity_score := _calculate_similarity_score keyword brand_info in
let final_score :=
weighted_sum weights freq_score tfidf_score cooccurrence_score
position_score similarity_score in
clamp01 final_score.

End Scoring.

End Scorer.

(** ** app/services/nlp.py *)

Module NLP.

(** A keyword candidate, [{'term': ..., 'score': ..., 'source': ...}]. *)
Record Keyword := {
  term : pystr;
  score : Q;
  source : pystr;
}.

(** What a call of [extract_keywords] does to its collaborators. *)
Inductive call :=
  | CallNormalize (text : pystr)
  | CallYake (text : pystr)
  | CallKeyBERT (text : pystr).

(** [[kw for i, kw in enumerate(keywords) if i not in to_remove]], with
    [i] the index of the head. *)
Fixpoint keep_indices (to_remove : gset nat) (i : nat) (keywords : list Keyword)
    : list Keyword :=
  match keywords with
  | [] => []
  | kw :: rest =>
      if bool_decide (i ∈ to_remove)
      then keep_indices to_remove (S i) rest
      else kw :: keep_indices to_remove (S i) rest
  end.

(** Insertion-ordered grouping, [exact_groups[key].append(kw)]. *)
Fixpoint group_append (groups : list (pystr * list Keyword)) (key : pystr)
    (kw : Keyword) : list (pystr * list Keyword) :=
  match groups with
  | [] => [(key, [kw])]
  | (k, g) :: rest =>
      if str_eqb k key then (k, g ++ [kw]) :: rest
      else (k, g) :: group_append rest key kw
  end.

Section Service.
Context `{Runtime}.

(** The sentence-embedding model and scikit-learn's cosine similarity.
[encode] maps every term of the batch to its embedding. *)
Context {Embedding : Type}.
Variable cosine_similarity : Embedding -> Embedding -> Q.
(** [settings.similarity_threshold] *)
Variable similarity_threshold : Q.
(** [TextUtils.normalize_text]; the two providers, [None] when the
provider's task ends with an exception. *)
Variable normalize_text : pystr -> option pystr.
Variable _extract_with_yake : pystr -> option (list Keyword).
Variable _extract_with_keybert : pystr -> option (list Keyword).
(** [list(set(xs))]: the order depends on the interpreter's hashing. *)
Variable list_of_set : list pystr -> list pystr.

Section Dedup.
(** [self.sentence_transformer]: [None] when no model is loaded. *)
Variable sentence_transformer : option (pystr -> Embedding).

(** The test [similarity_matrix[i][j] > settings.similarity_threshold] on
the embeddings of two keywords. *)
Definition similar (encode : pystr -> Embedding) (a b : Keyword) : bool :=
Qltb similarity_threshold
(cosine_similarity (encode (term a)) (encode (term b))).

(** The inner loop, [for j in range(i + 1, len(keywords))], over the
indices [js] still to visit. Returning without visiting the rest is
the [break]. An index out of range would raise. *)
Fixpoint inner_loop (keywords : list Keyword) (embeddings : list Embedding)
(i : nat) (js : list nat) (to_remove : gset nat) : option (gset nat) :=
match js with
| [] => Some to_remove
| j :: js' =>
if bool_decide (j ∈ to_remove)
then inner_loop keywords embeddings i js' to_remove
else
ei ← embeddings !! i;
ej ← embeddings !! j;
let similarity := cosine_similarity ei ej in
if Qltb similarity_threshold similarity then
ki ← keywords !! i;
kj ← keywords !! j;
if Qleb (score kj) (score ki)
then inner_loop keywords embeddings i js' ({[ j ]} ∪ to_remove)
else Some ({[ i ]} ∪ to_remove)
else inner_loop keywords embeddings i js' to_remove
end.

(** The outer loop, [for i in range(len(keywords))], over the indices
[is_] still to visit. *)
Fixpoint outer_loop (keywords : list Keyword) (embeddings : list Embedding)
(is_ : list nat) (to_remove : gset nat) : option (gset nat) :=
match is_ with
| [] => Some to_remove
| i :: is' =>
if bool_decide (i ∈ to_remove)
then outer_loop keywords embeddings is' to_remove
else
to_remove' ←
inner_loop keywords embeddings i
(seq (i + 1) (length keywords - (i + 1))) to_remove;
outer_loop keywords embeddings is' to_remove'
end.

(** The [try] block of [_deduplicate_by_similarity]; [encode] is the
loaded model. *)
Definition dedup_body (encode : pystr -> Embedding)
(keywords : list Keyword) : option (list Keyword) :=
let terms := term <$> keywords in
let embeddings := encode <$> terms in
to_remove ← outer_loop keywords embeddings (seq 0 (length keywords)) ∅;
Some (keep_indices to_remove 0 keywords).

(** [_deduplicate_by_similarity]: on an exception the input list is
returned as it is. *)
Definition _deduplicate_by_similarity (keywords : list Keyword)
: list Keyword :=
if (length keywords <=? 1)%nat then keywords
else
match sentence_transformer with
| None => keywords
| Some encode => default keywords (dedup_body encode keywords)
end.

(** [np.mean] of a non-empty list. *)
Definition mean (l : list Q) : Q :=
(Config.pysum l / inject_Z (Z.of_nat (length l)))%Q.

(** [_merge_keyword_results] *)
Definition _merge_keyword_results (yake_results keybert_results : list Keyword)
: list Keyword :=
let all_keywords := yake_results ++ keybert_results in
match all_keywords with
| [] => []
| _ :: _ =>
let exact_groups :=
fold_left
(fun groups kw => group_append groups (strip (str_lower (term kw))) kw)
all_keywords [] in
let merged_keywords :=
(fun '(_, group) =>
match group with
| [kw] => kw
| _ =>
{| term := default [] (term <$> head group);
score := mean (score <$> group);
source := join (py "+") (list_of_set (source <$> group)) |}
end) <$> exact_groups in
let final_keywords := _deduplicate_by_similarity merged_keywords in
sort_desc (fun a b => Qltb (score a) (score b)) final_keywords
end.

(** [extract_keywords], with the calls it makes. The guard returns before
anything is called. A provider that raises contributes [[]]; an
exception of the normalizer reaches the outer handler, which answers
[[]]. *)
Definition extract_keywords (text : pystr) (max_keywords : nat)
: list Keyword * list call :=
if negb (truthy text) || (length (strip text) <? 50)%nat
then ([], [])
else
match normalize_text text with
| None => ([], [CallNormalize text])
| Some normalized_text =>
let yake_keywords := default [] (_extract_with_yake normalized_text) in
let keybert_keywords :=
default [] (_extract_with_keybert normalized_text) in
let merged_keywords :=
_merge_keyword_results yake_keywords keybert_keywords in
(take max_keywords merged_keywords,
[CallNormalize text; CallYake normalized_text;
CallKeyBERT normalized_text])
end.
End Dedup.

End Service.

(** Two candidates to evaluate the deduplication on: terms are their own
    embeddings, and two terms that both mention [laptop] are 0.95 similar. *)
Definition laptop_similarity (a b : pystr) : Q :=
  if contains a (py "laptop") && contains b (py "laptop") then 0.95 else 0.1.

Definition best_laptop : Keyword :=
  {| term := py "best laptop"; score := 0.9; source := py "yake" |}.

Definition top_laptop : Keyword :=
  {| term := py "top laptop"; score := 0.85; source := py "keybert" |}.

Definition red_shoes : Keyword :=
  {| term := py "red shoes"; score := 0.4; source := py "yake" |}.

(** Every index the loops mark for removal is beaten by another keyword:
    an earlier one scored at least as high, or a later one scored
    strictly higher. *)
Definition beaten (kws : list Keyword) (x : nat) : Prop :=
  exists y kx ky,
    kws !! x = Some kx /\ kws !! y = Some ky /\
    ((y < x /\ (score kx <= score ky)%Q) \/ (x < y /\ (score kx < score ky)%Q)).

End NLP.

(** ** Regular expressions, as far as the URL patterns need them *)

Module Re.

Inductive regex :=
  | Void                                (* matches nothing *)
  | Eps                                 (* the empty string *)
  | Class (p : N -> bool)               (* one character satisfying [p] *)
  | Seq (r1 r2 : regex)
  | Alt (r1 r2 : regex)
  | Star (r : regex).

Definition Chr (c : N) : regex := Class (N.eqb c).
Definition Any : regex := Class (fun _ => true).
Definition Plus (r : regex) : regex := Seq r (Star r).

(** A literal run of characters. *)
Fixpoint Lit (s : pystr) : regex :=
  match s with
  | [] => Eps
  | c :: s' => Seq (Chr c) (Lit s')
  end.

(** [(a|b|...)] *)
Fixpoint Alts (rs : list regex) : regex :=
  match rs with
  | [] => Void
  | [r] => r
  | r :: rs' => Alt r (Alts rs')
  end.

Fixpoint nullable (r : regex) : bool :=
  match r with
  | Void => false
  | Eps => true
  | Class _ => false
  | Seq r1 r2 => nullable r1 && nullable r2
  | Alt r1 r2 => nullable r1 || nullable r2
  | Star _ => true
  end.

(** The derivative of [r] by the character [c]. *)
Fixpoint deriv (c : N) (r : regex) : regex :=
  match r with
  | Void => Void
  | Eps => Void
  | Class p => if p c then Eps else Void
  | Seq r1 r2 =>
      if nullable r1
      then Alt (Seq (deriv c r1) r2) (deriv c r2)
      else Seq (deriv c r1) r2
  | Alt r1 r2 => Alt (deriv c r1) (deriv c r2)
  | Star r1 => Seq (deriv c r1) (Star r1)
  end.

(** [r] matches the whole of [s]. *)
Fixpoint fullmatch (r : regex) (s : pystr) : bool :=
  match s with
  | [] => nullable r
  | c :: s' => fullmatch (deriv c r) s'
  end.

(** [re.search(r, s)] as a truth value: [r] matches somewhere in [s]. *)
Definition search (r : regex) (s : pystr) : bool :=
  fullmatch (Seq (Star Any) (Seq r (Star Any))) s.

(** [re.search(r'...$', s)]: the match ends at the end of [s] or just
    before a newline that ends [s]. *)
Definition search_to_end (r : regex) (s : pystr) : bool :=
  fullmatch (Seq (Star Any) (Seq r (Alt Eps (Chr 10)))) s.

End Re.

(** ** app/services/sitemap.py *)

Module Sitemap.

(** A [datetime]: microseconds since [datetime.min], and whether the value
    carries a time zone. Ordering a naive against an aware value raises
    [TypeError]. *)
Record datetime := {
  micros : Z;
  aware : bool;
}.

Definition datetime_min : datetime := {| micros := 0; aware := false |}.

(** [a >= b] on datetimes; [None] is the [TypeError]. *)
Definition datetime_ge (a b : datetime) : option bool :=
  if Bool.eqb (aware a) (aware b) then Some (micros b <=? micros a)%Z else None.

(** [timedelta(days=d)] in microseconds. *)
Definition days (d : Z) : Z := (d * 86400 * 1000000)%Z.

(** One record of [urls_with_dates]. *)
Record UrlData := {
  url : pystr;
  lastmod : option datetime;
  priority : Q;
  changefreq : pystr;
  relevance_score : Q;
}.

Inductive category := products | blog | categories | landing | other.

#[export] Instance category_eq_dec : EqDecision category.
Proof. solve_decision. Defined.

(** [categories[c].append(url_data)] on a [defaultdict(list)]: a new key
    goes to the end. *)
Fixpoint dict_append (d : list (category * list UrlData)) (c : category)
    (u : UrlData) : list (category * list UrlData) :=
  match d with
  | [] => [(c, [u])]
  | (k, l) :: rest =>
      if bool_decide (k = c) then (k, l ++ [u]) :: rest
      else (k, l) :: dict_append rest c u
  end.

(** [categories[c]] when [c in categories]. *)
Fixpoint dict_get (d : list (category * list UrlData)) (c : category)
    : option (list UrlData) :=
  match d with
  | [] => None
  | (k, l) :: rest => if bool_decide (k = c) then Some l else dict_get rest c
  end.

Definition mem (x : pystr) (l : list pystr) : bool := bool_decide (x ∈ l).

Section Service.
Context `{Runtime}.

(** [re.search(p, url)] for a pattern that is a literal path piece. *)
Definition has (s : string) (url : pystr) : bool := Re.search (Re.Lit (py s)) url.

(** [/(a|b|c)/] *)
Definition slashed (alts : list string) : Re.regex :=
Re.Seq (Re.Chr 47) (Re.Seq (Re.Alts (Re.Lit ∘ py <$> alts)) (Re.Chr 47)).

Definition digits : Re.regex := Re.Plus (Re.Class re_digit).

(** [[a-z0-9-]] *)
Definition slug_char (c : N) : bool :=
((97 <=? c) && (c <=? 122) || (48 <=? c) && (c <=? 57) || (c =? 45))%N.

Definition relevant_patterns : list Re.regex :=
[slashed ["producto"; "product"; "item"];
slashed ["articulo"; "article"; "post"; "blog"];
slashed ["categoria"; "category"];
slashed ["servicio"; "service"];
slashed ["nosotros"; "about"; "sobre"];
slashed ["contacto"; "contact"]]%string.

Definition keyword_patterns : list Re.regex :=
[slashed ["guia"; "guide"; "tutorial"];
slashed ["mejor"; "best"; "top"];
slashed ["precio"; "price"; "cost"];
slashed ["oferta"; "offer"; "deal"]]%string.

(** [for pattern in patterns: if re.search(pattern, url): score += bonus] *)
Definition add_bonuses (patterns : list Re.regex) (bonus : Q) (url : pystr)
(score : Q) : Q :=
fold_left
(fun score pattern => if Re.search pattern url then (score + bonus)%Q else score)
patterns score.

(** [_calculate_relevance_score], from the two entries it reads. *)
Definition _calculate_relevance_score (url_ : pystr) (priority_ : Q) : Q :=
let score := 0.5%Q in
let url := str_lower url_ in
let score := (score + priority_ * 0.3)%Q in
let score := add_bonuses relevant_patterns 0.1 url score in
let depth := (Z.of_nat (count_char url 47) - 2)%Z in
let score :=
if (4 <? depth)%Z then (score - 0.1 * inject_Z (depth - 4))%Q else score in
let score := add_bonuses keyword_patterns 0.05 url score in
pymax 0 (pymin 1 score).

(** The dictionary [_extract_url_data_with_dates] returns for an entry. *)
Definition make_url_data (url_ : pystr) (lastmod_ : option datetime)
(priority_ : Q) (changefreq_ : pystr) : UrlData :=
{| url := url_; lastmod := lastmod_; priority := priority_;
changefreq := changefreq_;
relevance_score := _calculate_relevance_score url_ priority_ |}.

Definition _is_product_url (url : pystr) : bool :=
let u := str_lower url in
existsb (fun p => has p u)
["/product/"; "/products/"; "/item/"; "/items/";
"/shop/"; "/tienda/"; "/comprar/"; "/buy/"]%string
|| Re.search_to_end (Re.Seq (Re.Chr 47) digits) u
|| Re.search_to_end
(Re.Seq (Re.Chr 47)
(Re.Seq (Re.Plus (Re.Class slug_char)) (Re.Seq (Re.Chr 45) digits))) u.

Definition _is_blog_url (url : pystr) : bool :=
let u := str_lower url in
existsb (fun p => has p u)
["/blog/"; "/news/"; "/noticias/"; "/articulos/";
"/post/"; "/posts/"; "/article/"; "/articles/";
"/tutorial/"; "/guia/"; "/guide/"]%string.

Definition _is_category_url (url : pystr) : bool :=
let u := str_lower url in
existsb (fun p => has p u)
["/category/"; "/categoria/"; "/categorias/";
"/section/"; "/seccion/"; "/departamento/";
"/department/"; "/rubro/"]%string.

Definition _is_landing_page (url : pystr) : bool :=
let u := str_lower url in
Re.search_to_end (Re.Chr 47) u
|| existsb (fun p => has p u)
["/home/"; "/inicio/"; "/principal/";
"/about/"; "/acerca/"; "/nosotros/";
"/contact/"; "/contacto/"; "/contactanos/"]%string.

(** The category [_categorize_urls] files a URL under. *)
Definition category_of (url : pystr) : category :=
if _is_product_url url then products
else if _is_blog_url url then blog
else if _is_category_url url then categories
else if _is_landing_page url then landing
else other.

(** [x['lastmod'] or datetime.min] *)
Definition lastmod_or_min (u : UrlData) : datetime :=
default datetime_min (lastmod u).

(** The sort key [(relevance_score, lastmod or datetime.min)], compared
as a tuple. The categorizer runs only after the recency test has
ordered every date against a naive one, so the dates it compares are
all naive and the order is that of their microseconds. *)
Definition category_key_lt (a b : UrlData) : bool :=
Qltb (relevance_score a) (relevance_score b)
|| Qeq_bool (relevance_score a) (relevance_score b)
&& (micros (lastmod_or_min a) <? micros (lastmod_or_min b))%Z.

(** [_categorize_urls]: the dictionary keeps its keys in the order in
which the categories first occur. *)
Definition _categorize_urls (urls : list UrlData) (domain : pystr)
: list (category * list UrlData) :=
let categories :=
fold_left (fun d url_data => dict_append d (category_of (url url_data)) url_data)
urls [] in
(fun '(c, l) => (c, sort_desc category_key_lt l)) <$> categories.

Definition priority_categories : list category :=
[products; blog; categories; landing; other].

(** [category_limits[c]] *)
Definition category_limit (max_urls : nat) (c : category) : nat :=
match c with
| products => Nat.max 1 (max_urls / 3)
| blog => Nat.max 1 (max_urls / 4)
| categories => Nat.max 1 (max_urls / 6)
| landing => Nat.max 1 (max_urls / 8)
| other => Nat.max 1 (max_urls / 8)
end.

(** [for url_data in l: if len(selected) < max_urls: selected.append(url)] *)
Definition append_while_room (max_urls : nat) (l : list UrlData)
(selected_urls : list pystr) : list pystr :=
fold_left
(fun sel url_data =>
if (length sel <? max_urls)%nat then sel ++ [url url_data] else sel)
l selected_urls.

(** The first loop of [_select_by_categories]: every category's quota. *)
Definition select_quotas (cats : list (category * list UrlData))
(max_urls : nat) : list pystr :=
fold_left
(fun sel c =>
match dict_get cats c with
| Some l =>
if (length sel <? max_urls)%nat
then append_while_room max_urls (take (category_limit max_urls c) l) sel
else sel
| None => sel
end)
priority_categories [].

(** The top-off loop: URLs not yet selected, while there is room. *)
Definition fill_remaining (max_urls : nat) (all_urls : list UrlData)
(selected_urls : list pystr) : list pystr :=
fold_left
(fun sel url_data =>
if negb (mem (url url_data) sel) && (length sel <? max_urls)%nat
then sel ++ [url url_data] else sel)
all_urls selected_urls.

Definition relevance_lt (a b : UrlData) : bool :=
Qltb (relevance_score a) (relevance_score b).

(** [_select_by_categories] *)
Definition _select_by_categories (cats : list (category * list UrlData))
(max_urls : nat) : list pystr :=
let selected_urls := select_quotas cats max_urls in
let selected_urls :=
if (length selected_urls <? max_urls)%nat then
let all_urls := concat (snd <$> cats) in
let all_urls := sort_desc relevance_lt all_urls in
fill_remaining max_urls all_urls selected_urls
else selected_urls in
take max_urls selected_urls.

(** [_select_by_relevance] *)
Definition _select_by_relevance (urls : list UrlData) (max_urls : nat)
: list pystr :=
url <$> take max_urls (sort_desc relevance_lt urls).

(** [url['lastmod'] and url['lastmod'] >= five_days_ago] *)
Definition is_recent (five_days_ago : datetime) (u : UrlData) : option bool :=
match lastmod u with
| None => Some false
| Some d => datetime_ge d five_days_ago
end.

(** The list comprehension that builds [recent_urls]; it raises as soon
as one test raises. *)
Fixpoint recent_filter (five_days_ago : datetime) (urls : list UrlData)
: option (list UrlData) :=
match urls with
| [] => Some []
| u :: rest =>
match is_recent five_days_ago u with
| None => None
| Some keep =>
rest' ← recent_filter five_days_ago rest;
Some (if keep then u :: rest' else rest')
end
end.

(** The candidates the [try] block categorizes. [now] is
[datetime.now()], a naive datetime. *)
Definition urls_to_categorize (now : Z) (urls_with_dates : list UrlData)
(max_urls : nat) : option (list UrlData) :=
let five_days_ago := {| micros := now - days 5; aware := false |} in
recent_urls ← recent_filter five_days_ago urls_with_dates;
if (length recent_urls <? max_urls)%nat
then Some urls_with_dates
else Some recent_urls.

(** [_select_intelligent_urls]: the handler falls back to the selection
by relevance over all records. *)
Definition _select_intelligent_urls (now : Z) (urls_with_dates : list UrlData)
(domain : pystr) (max_urls : nat) : list pystr :=
match urls_to_categorize now urls_with_dates max_urls with
| Some candidates =>
let categories := _categorize_urls candidates domain in
_select_by_categories categories max_urls
| None => _select_by_relevance urls_with_dates max_urls
end.

(** *** The selection scenario: three products and two blog posts *)

Definition category_of_record (u : UrlData) : category := category_of (url u).

Definition is_in (c : category) (u : UrlData) : bool :=
bool_decide (category_of_record u = c).

(** The recency test on a date that can be ordered against [now]. *)
Definition recentb (now : Z) (u : UrlData) : bool :=
match lastmod u with
| Some d => (now - days 5 <=? micros d)%Z
| None => false
end.

(** Every date in the list is naive (or absent). *)
Definition all_naive (urls : list UrlData) : Prop :=
forall u d, In u urls -> lastmod u = Some d -> aware d = false.

(** A sitemap of exactly three product URLs (priority 0.9, modified within
the last day) and two blog URLs (priority 0.5, modified 30 days ago),
with distinct URLs, each record carrying the relevance score the parser
computes for it. *)
Definition scenario (now : Z) (urls : list UrlData) : Prop :=
List.NoDup (url <$> urls)
/\ length (List.filter (is_in products) urls) = 3
/\ length (List.filter (is_in blog) urls) = 2
/\ forall u, In u urls ->
relevance_score u = _calculate_relevance_score (url u) (priority u)
/\ ((category_of_record u = products /\ priority u = 0.9%Q
/\ exists d, lastmod u = Some d
/\ (now - days 1 <= micros d <= now)%Z)
\/ (category_of_record u = blog /\ priority u = 0.5%Q
/\ exists d, lastmod u = Some d
/\ micros d = (now - days 30)%Z)).

(** The selection consists of all the product URLs and one blog URL. *)
Definition all_products_one_blog (urls : list UrlData) (selected : list pystr)
: Prop :=
exists b, In b urls /\ category_of_record b = blog
/\ Permutation selected
((url <$> List.filter (is_in products) urls) ++ [url b]).

(** Every product URL has a larger relevance score than every blog URL. *)
Definition products_outrank_blogs (urls : list UrlData) : Prop :=
forall p b, In p urls -> In b urls ->
category_of_record p = products -> category_of_record b = blog ->
(relevance_score b < relevance_score p)%Q.

End Service.

(** A sitemap of the scenario whose blog posts outrank its products: the
    shop pages earn no path bonus (0.5 + 0.9 * 0.3 = 0.77), the guides earn
    two (0.5 + 0.5 * 0.3 + 0.1 + 0.05 = 0.80). *)
Definition noon : Z := 63900000000000000.

Definition shop_and_guides : list UrlData :=
  let today := Some {| micros := noon; aware := false |} in
  let month_ago := Some {| micros := noon - days 30; aware := false |} in
  [ make_url_data (H := ascii_runtime) (py "https://example.com/shop/a")
      today 0.9 (py "monthly");
    make_url_data (H := ascii_runtime) (py "https://example.com/shop/b")
      today 0.9 (py "monthly");
    make_url_data (H := ascii_runtime) (py "https://example.com/shop/c")
      today 0.9 (py "monthly");
    make_url_data (H := ascii_runtime) (py "https://example.com/blog/guia/x")
      month_ago 0.5 (py "monthly");
    make_url_data (H := ascii_runtime) (py "https://example.com/blog/guia/y")
      month_ago 0.5 (py "monthly") ].

(** A sitemap of the scenario with the usual product paths. *)
Definition products_and_posts : list UrlData :=
  let today := Some {| micros := noon; aware := false |} in
  let month_ago := Some {| micros := noon - days 30; aware := false |} in
  [ make_url_data (H := ascii_runtime) (py "https://example.com/blog/x")
      month_ago 0.5 (py "monthly");
    make_url_data (H := ascii_runtime) (py "https://example.com/product/a")
      today 0.9 (py "monthly");
    make_url_data (H := ascii_runtime) (py "https://example.com/product/b")
      today 0.9 (py "monthly");
    make_url_data (H := ascii_runtime) (py "https://example.com/blog/y")
      month_ago 0.5 (py "monthly");
    make_url_data (H := ascii_runtime) (py "https://example.com/product/c")
      today 0.9 (py "monthly") ].

(** Three records whose dates carry a time zone, as the parser produces
    them from [<lastmod>2025-...T12:00:00+00:00</lastmod>]: one product
    modified today, one product and one blog post modified 30 days ago. *)
Definition zoned (aware_ : bool) : list UrlData :=
  let today := Some {| micros := noon; aware := aware_ |} in
  let month_ago := Some {| micros := noon - days 30; aware := aware_ |} in
  [ make_url_data (H := ascii_runtime) (py "https://example.com/product/a")
      today 0.9 (py "monthly");
    make_url_data (H := ascii_runtime) (py "https://example.com/product/b")
      month_ago 0.9 (py "monthly");
    make_url_data (H := ascii_runtime) (py "https://example.com/blog/c")
      month_ago 0.5 (py "monthly") ].

End Sitemap.

(** ** app/services/fetcher.py *)

Module Fetcher.

(** What the [try] block of one pass can raise: [httpx.HTTPStatusError]
    with the status of the response, [httpx.RequestError], or any other
    [Exception]. *)
Inductive exn :=
  | HTTPStatusError (status_code : Z)
  | RequestError
  | OtherException.

(** What the caller of [fetch_url] can observe besides the result: the
    requests sent and the back-off pauses, in order. The pause of the
    per-host rate limiter belongs to the request that follows it. *)
Inductive event :=
  | Get (attempt : nat)
  | Sleep (seconds : N).

#[export] Instance event_eq_dec : EqDecision event.
Proof. solve_decision. Defined.

(** [status_code in [404, 403, 401]] *)
Definition no_retry_status (status_code : Z) : bool :=
  ((status_code =? 404) || (status_code =? 403) || (status_code =? 401))%Z.

(** [j] failed passes from pass [a] on, each followed by its pause. *)
Definition segment (a j : nat) : list event :=
  concat ((fun x => [Get x; Sleep (2 ^ N.of_nat x)]) <$> seq a j).

(** The exceptions after which the loop goes on. *)
Definition goes_on (e : exn) : bool :=
  match e with
  | HTTPStatusError status_code => negb (no_retry_status status_code)
  | _ => true
  end.

Section Fetch.
Context {Response : Type}.

(** The outcome of the [try] block of pass [attempt]: the response of
[client.get] once [raise_for_status] accepted it, or the exception. *)
Variable try_get : nat -> Response + exn.

(** [for attempt in range(retries + 1)], over the passes [todo] still to
run. The result is what [fetch_url] returns, with the events up to
that point. *)
Fixpoint passes (retries : nat) (todo : list nat)
: option Response * list event :=
match todo with
| [] => (None, [])
| attempt :: todo' =>
match try_get attempt with
| inl response => (Some response, [Get attempt])
| inr e =>
let stop :=
match e with
| HTTPStatusError status_code => no_retry_status status_code
| _ => false
end in
if stop then (None, [Get attempt])
else
let backoff :=
if (attempt <? retries)%nat
then [Sleep (2 ^ N.of_nat attempt)] else [] in
let '(r, evs) := passes retries todo' in
(r, Get attempt :: backoff ++ evs)
end
end.

(** [fetch_url(url, retries)] *)
Definition fetch_url (retries : nat) : option Response * list event :=
passes retries (seq 0 (retries + 1)).

(** Pass [a] raised an exception after which the loop goes on. *)
Definition retryable (a : nat) : Prop :=
exists e, try_get a = inr e /\ goes_on e = true.

End Fetch.

(** The events of [n + 1] passes separated by their back-off pauses:
    [Get 0; Sleep 1; Get 1; Sleep 2; ...; Get n]. *)
Fixpoint schedule (n : nat) : list event :=
  match n with
  | O => [Get 0]
  | S k => schedule k ++ [Sleep (2 ^ N.of_nat k); Get (S k)]
  end.

Definition is_get (e : event) : bool :=
  match e with Get _ => true | Sleep _ => false end.

(** A server that is unreachable twice and then answers 404. *)
Definition flaky_then_404 (attempt : nat) : unit + exn :=
  if (attempt <? 2)%nat then inr RequestError else inr (HTTPStatusError 404).

End Fetcher.

(** ** app/main.py *)

Module Main.
Import Scorer.

(** An endpoint either returns its response model or raises
    [HTTPException(status_code, detail)]. *)
Inductive endpoint (A : Type) :=
  | Return (a : A)
  | HTTPException (status_code : Z) (detail : pystr).
Arguments Return {A} a.
Arguments HTTPException {A} status_code detail.

Record DomainSummary := {
  total_urls : nat;
  por_tipo : nat * nat * nat;          (* ecommerce, blog, mixto *)
  top_keywords_cliente : list KeywordScore;
  top_keywords_producto : list KeywordScore;
  top_keywords_generales : list KeywordScore;
}.

Section Endpoint.
(** The fields of a page analysis that the domain summary does not read
(meta, headings, stats, audience, intent, products). *)
Context {Details : Type}.

Record URLAnalysisResponse := {
url : pystr;
tipo : pystr;
details : Details;
keywords : Buckets;
}.

Record DomainAnalysisResponse := {
domain : pystr;
resumen : DomainSummary;
urls : list URLAnalysisResponse;
}.

(** One entry of what [asyncio.gather(..., return_exceptions=True)]
hands back: a page analysis, the [None] of a page that failed, or an
exception object. *)
Inductive gathered :=
| Analysed (r : URLAnalysisResponse)
| Nothing
| Failed.

(** [keyword_scores[term].append(score)], insertion-ordered. *)
Fixpoint scores_append (d : list (pystr * list Q)) (t : pystr) (s : Q)
: list (pystr * list Q) :=
match d with
| [] => [(t, [s])]
| (k, l) :: rest =>
if str_eqb k t then (k, l ++ [s]) :: rest
else (k, l) :: scores_append rest t s
end.

(** [KeywordScorer.get_top_keywords_by_bucket] over the buckets of the
analysed pages. *)
Definition get_top_keywords_by_bucket (all_url_results : list Buckets)
(bucket_name : bucket) (top_n : nat) : list KeywordScore :=
let keyword_scores :=
fold_left
(fun d bs =>
fold_left (fun d kw => scores_append d (term kw) (score kw))
(get_bucket bs bucket_name) d)
all_url_results [] in
let top_keywords :=
(fun '(keyword, scores) =>
{| term := keyword;
score := (Config.pysum scores / inject_Z (Z.of_nat (length scores)))%Q |})
<$> keyword_scores in
take top_n (sort_desc (fun a b => Qltb (score a) (score b)) top_keywords).

Definition count_tipo (t : string) (url_results : list URLAnalysisResponse) : nat :=
length (List.filter (fun r => str_eqb (tipo r) (py t)) url_results).

(** [_create_domain_summary] *)
Definition _create_domain_summary (url_results : list URLAnalysisResponse)
: DomainSummary :=
let all_keywords_data := keywords <$> url_results in
{| total_urls := length url_results;
por_tipo := (count_tipo "ecommerce" url_results,
count_tipo "blog" url_results,
count_tipo "mixto" url_results);
top_keywords_cliente :=
get_top_keywords_by_bucket all_keywords_data cliente 20;
top_keywords_producto :=
get_top_keywords_by_bucket all_keywords_data producto_o_post 20;
top_keywords_generales :=
get_top_keywords_by_bucket all_keywords_data generales_seo 20 |}.

(** The text of the validation error that building
[DomainSummary(total_urls=0)], which lacks the required [por_tipo],
raises. *)
Variable validation_error : pystr.

(** [analyze_domain], from the URLs that [get_intelligent_urls] selected
and what processing each of them yields. *)
Definition analyze_domain (request_domain : pystr)
(urls_to_process : list pystr) (process_url : pystr -> gathered)
: endpoint DomainAnalysisResponse :=
match urls_to_process with
| [] =>
HTTPException 500
(py "Error interno analizando dominio: " ++ validation_error)
| _ :: _ =>
let results := process_url <$> urls_to_process in
let valid_results :=
omap (fun result =>
match result with Analysed r => Some r | _ => None end)
results in
match valid_results with
| [] => HTTPException 500 (py "No se pudieron procesar URLs válidas")
| _ :: _ =>
Return {| domain := request_domain;
resumen := _create_domain_summary valid_results;
urls := valid_results |}
end
end.

End Endpoint.

End Main.

(** ** app/config.py: updating the weights *)

Module Settings.
Import Config.

(** The dictionary passed to [update_scoring_weights]: each of the five
    keys may be absent; other keys are not read. *)
Record WeightsUpdate := {
  w1_frequency : option Q;
  w2_tfidf : option Q;
  w3_cooccurrence : option Q;
  w4_position_title : option Q;
  w5_similarity_brand : option Q;
}.

(** The five conditional assignments. *)
Definition assign (current : ScoringWeights) (weights : WeightsUpdate)
  : ScoringWeights :=
  {| Config.w1_frequency :=
       default (Config.w1_frequency current) (w1_frequency weights);
     Config.w2_tfidf := default (Config.w2_tfidf current) (w2_tfidf weights);
     Config.w3_cooccurrence :=
       default (Config.w3_cooccurrence current) (w3_cooccurrence weights);
     Config.w4_position_title :=
       default (Config.w4_position_title current) (w4_position_title weights);
     Config.w5_similarity_brand :=
       default (Config.w5_similarity_brand current) (w5_similarity_brand weights) |}.

(** [Settings.update_scoring_weights]: assign, then normalize. *)
Definition update_scoring_weights (current : ScoringWeights)
    (weights : WeightsUpdate) : option ScoringWeights :=
  normalize_weights (assign current weights).

(** [Field(None, ge=0, le=1)] on every entry of the request. *)
Definition valid_update (weights : WeightsUpdate) : Prop :=
  (forall x, w1_frequency weights = Some x -> field_ok x)
  /\ (forall x, w2_tfidf weights = Some x -> field_ok x)
  /\ (forall x, w3_cooccurrence weights = Some x -> field_ok x)
  /\ (forall x, w4_position_title weights = Some x -> field_ok x)
  /\ (forall x, w5_similarity_brand weights = Some x -> field_ok x).

(** Two weight vectors with equal components. *)
Definition same_weights (a b : ScoringWeights) : Prop :=
  (Config.w1_frequency a == Config.w1_frequency b
   /\ Config.w2_tfidf a == Config.w2_tfidf b
   /\ Config.w3_cooccurrence a == Config.w3_cooccurrence b
   /\ Config.w4_position_title a == Config.w4_position_title b
   /\ Config.w5_similarity_brand a == Config.w5_similarity_brand b)%Q.

(** A request that sets only the frequency weight. *)
Definition only_frequency (x : Q) : WeightsUpdate :=
  {| w1_frequency := Some x; w2_tfidf := None; w3_cooccurrence := None;
     w4_position_title := None; w5_similarity_brand := None |}.

(** A request that sets all five weights to zero. *)
Definition all_to_zero : WeightsUpdate :=
  {| w1_frequency := Some 0%Q; w2_tfidf := Some 0%Q;
     w3_cooccurrence := Some 0%Q; w4_position_title := Some 0%Q;
     w5_similarity_brand := Some 0%Q |}.

End Settings.

(** ** app/main.py: the keywords of one page *)

Module Page.
Import Scorer.

Section Keywords.
Context `{Runtime}.
Variable normalize_text : pystr -> option pystr.
Variable tokenize_text : pystr -> option (list pystr).
Variable calculate_tfidf_scores :
list pystr -> list pystr -> option (gmap pystr Q).
Variable np_log : Q -> Q.
Variable settings_scoring_weights : Config.ScoringWeights.

(** The loop of [process_url] that rescores every extracted keyword with
the configured weights. *)
Definition keywords_with_scores (keywords_raw : list NLP.Keyword)
(text_data : TextData) (brand_info : BrandInfo) : list KeywordScore :=
(fun kw_data =>
let keyword := NLP.term kw_data in
{| term := keyword;
score :=
calculate_keyword_score normalize_text tokenize_text
calculate_tfidf_scores np_log settings_scoring_weights
keyword text_data brand_info None |})
<$> keywords_raw.

(** [scorer.bucketize_keywords(keywords_with_scores, page_type, brand_info)]:
the page is bucketed without domain keywords. *)
Definition keywords_buckets (keywords_raw : list NLP.Keyword)
(text_data : TextData) (page_type : pystr) (brand_info : BrandInfo)
: Buckets :=
bucketize_keywords (keywords_with_scores keywords_raw text_data brand_info)
page_type brand_info None.

End Keywords.

End Page.

(** ** app/services/fetcher.py: the per-host rate limiter *)

Module RateLimit.

(** The clock that [time.time()] reads, in seconds, and the fetcher's
    [last_request_time] dictionary. *)
Record state := {
  clock : Q;
  last_request_time : gmap pystr Q;
}.

(** [await asyncio.sleep(seconds)]: the task resumes [late] seconds after
    the pause is over. *)
Definition sleep (seconds late : Q) (st : state) : state :=
  {| clock := clock st + seconds + late;
     last_request_time := last_request_time st |}.

(** What happens to a fetcher used by one task at a time: time passes, or
    [_rate_limit(url)] is awaited. *)
Inductive step :=
  | Elapse (seconds : Q)
  | Request (url : pystr) (late : Q).

(** Time does not run backwards, and a pause is never cut short. *)
Definition well_timed (s : step) : Prop :=
  match s with
  | Elapse seconds => (0 <= seconds)%Q
  | Request _ late => (0 <= late)%Q
  end.

Section Limiter.
(** [urlparse(url).netloc] *)
Variable netloc : pystr -> pystr.

(** [_rate_limit(url)] *)
Definition _rate_limit (url : pystr) (late : Q) (st : state) : state :=
let domain := netloc url in
let current_time := clock st in
let st' :=
match last_request_time st !! domain with
| Some last =>
let time_since_last := (current_time - last)%Q in
let min_delay := 1%Q in
if Qltb time_since_last min_delay
then sleep (min_delay - time_since_last) late st
else st
| None => st
end in
{| clock := clock st';
last_request_time := <[domain := clock st']> (last_request_time st') |}.

(** The requests that get past the limiter, each with its host and the
time at which the limiter let it go, in order. *)
Fixpoint run (steps : list step) (st : state) : list (pystr * Q) :=
match steps with
| [] => []
| Elapse seconds :: rest =>
run rest {| clock := clock st + seconds;
          last_request_time := last_request_time st |}
| Request url late :: rest =>
let st' := _rate_limit url late st in
(netloc url, clock st') :: run rest st'
end.
End Limiter.

(** A fetcher as [__init__] leaves it. *)
Definition fresh (now : Q) : state :=
  {| clock := now; last_request_time := ∅ |}.

(** Everything up to the first [/] is the host: enough to evaluate the
    limiter on URLs written without scheme. *)
Definition host_of (url : pystr) : pystr := before_first url (py "/").

End RateLimit.

(** ** app/services/sitemap.py: finding the sitemap *)

Module Discovery.
Import Sitemap.

(** What awaiting [fetcher.fetch_url(url)] gives: a response, with its
    status and text, [None], or an exception. *)
Inductive fetched :=
  | Response (status_code : Z) (text : pystr)
  | NoResponse
  | FetchRaises.

(** [response and response.status_code == 200] *)
Definition is_200 (r : fetched) : bool :=
  match r with
  | Response status_code _ => (status_code =? 200)%Z
  | _ => false
  end.

(** The paths tried, in this order. *)
Definition sitemap_paths : list pystr :=
  py <$> ["/sitemap.xml"; "/sitemap_index.xml"; "/wp-sitemap.xml";
          "/sitemap.xml.gz"; "/sitemap_index.xml.gz"]%string.

(** [s.split(sep)] for a one-character [sep]; [cur] is the piece being
    read, reversed. *)
Fixpoint split_on_go (sep : N) (s : pystr) (cur : pystr) : list pystr :=
  match s with
  | [] => [rev cur]
  | c :: s' =>
      if (c =? sep)%N then rev cur :: split_on_go sep s' []
      else split_on_go sep s' (c :: cur)
  end.

Definition split_on (sep : N) (s : pystr) : list pystr := split_on_go sep s [].

(** [s.split(':', 1)[1]]: what follows the first colon; [None] is the
    [IndexError] of a string without colon. *)
Fixpoint after_first_colon (s : pystr) : option pystr :=
  match s with
  | [] => None
  | c :: s' => if (c =? 58)%N then Some s' else after_first_colon s'
  end.

(** One record of [crawl_fallback]. *)
Record LinkData := {
  link_url : pystr;
  link_lastmod : option datetime;
  link_changefreq : option pystr;
  link_priority : Q;
  link_relevance_score : Q;
}.

Definition link_data (link : pystr) : LinkData :=
  {| link_url := link; link_lastmod := None; link_changefreq := None;
     link_priority := 0.5; link_relevance_score := 0.5 |}.

(** [for link in ...: if len(urls) >= max_urls: break; urls.append(...)] *)
Fixpoint crawl_loop (max_urls : nat) (links : list pystr)
    (urls : list LinkData) : list LinkData :=
  match links with
  | [] => urls
  | link :: rest =>
      if (max_urls <=? length urls)%nat then urls
      else crawl_loop max_urls rest (urls ++ [link_data link])
  end.

Section Service.
Context `{Runtime}.
(** [urllib.parse.urljoin] *)
Variable urljoin : pystr -> pystr -> pystr.
(** [fetcher.fetch_url] *)
Variable fetch_url : pystr -> fetched.
(** The internal links that [HTMLParserService.parse_html] finds in a page,
[parsed_data.get('links', {}).get('internal', [])]; [None] when the
parser raises. *)
Variable internal_links : pystr -> pystr -> option (list pystr).
(** [parse_sitemap_with_dates], which answers [[]] on every error. *)
Variable parse_sitemap_with_dates : pystr -> list UrlData.

(** The loop over the candidates: the first that answers 200 is returned.
The second component lists the URLs fetched. An exception of the fetch
is caught and the loop goes on. *)
Fixpoint try_candidates (sitemap_candidates : list pystr)
: option pystr * list pystr :=
match sitemap_candidates with
| [] => (None, [])
| sitemap_url :: rest =>
if is_200 (fetch_url sitemap_url) then (Some sitemap_url, [sitemap_url])
else
let '(found, fetches) := try_candidates rest in
(found, sitemap_url :: fetches)
end.

(** The loop over the lines of [robots.txt]. [None] is also what the
handler answers when a line raises. *)
Fixpoint robots_lines (lines : list pystr) : option pystr :=
match lines with
| [] => None
| line :: rest =>
let line := strip line in
if startswith (str_lower line) (py "sitemap:") then
match after_first_colon line with
| None => None
| Some value =>
let sitemap_url := strip value in
if truthy sitemap_url then Some sitemap_url else robots_lines rest
end
else robots_lines rest
end.

(** [_find_sitemap_in_robots], with the URL it fetches. *)
Definition _find_sitemap_in_robots (base_url : pystr)
: option pystr * list pystr :=
let robots_url := urljoin base_url (py "/robots.txt") in
(match fetch_url robots_url with
| Response status_code robots_content =>
if (status_code =? 200)%Z
then robots_lines (split_on 10 robots_content)
else None
| NoResponse => None
| FetchRaises => None
end, [robots_url]).

(** [discover_sitemap], with the URLs it fetches, in order. *)
Definition discover_sitemap (base_url : pystr) : option pystr * list pystr :=
let sitemap_candidates := urljoin base_url <$> sitemap_paths in
match try_candidates sitemap_candidates with
| (Some sitemap_url, fetches) => (Some sitemap_url, fetches)
| (None, fetches) =>
let '(robots_sitemap, robots_fetches) := _find_sitemap_in_robots base_url in
(match robots_sitemap with
| Some sitemap_url =>
if truthy sitemap_url then Some sitemap_url else None
| None => None
end, fetches ++ robots_fetches)
end.

(** [crawl_fallback]: the handler returns the records collected so far,
and nothing is collected before the loop. *)
Definition crawl_fallback (base_url : pystr) (max_urls : nat)
: list LinkData :=
match fetch_url base_url with
| Response _ text =>
match internal_links text base_url with
| Some links => crawl_loop max_urls (take max_urls links) []
| None => []
end
| NoResponse => []
| FetchRaises => []
end.

(** [get_intelligent_urls]; [now] is the clock that
[_select_intelligent_urls] reads. Every call awaited here handles its own
exceptions, so the outer handler, which answers the empty list, is left
to a fetcher that cannot be created. *)
Definition get_intelligent_urls (now : Z) (domain : pystr) (max_urls : nat)
: list pystr :=
let fallback :=
link_url <$> take max_urls (crawl_fallback domain max_urls) in
match fst (discover_sitemap domain) with
| Some sitemap_url =>
if truthy sitemap_url then
match parse_sitemap_with_dates sitemap_url with
| [] => fallback
| urls_with_dates =>
_select_intelligent_urls now urls_with_dates domain max_urls
end
else fallback
| None => fallback
end.

End Service.

End Discovery.

(** ** app/main.py: the summary and its handler *)

Module Summary.
Import Scorer Main.

(** Building a [KeywordScore] from a dictionary: the model validates
[score] against [ge=0] and [le=1]; [None] is the [ValidationError]. *)
Definition validate (kw : KeywordScore) : option KeywordScore :=
  if Qleb 0 (score kw) && Qleb (score kw) 1 then Some kw else None.

(** The comprehension that builds a [KeywordScore] from every entry of
[top_keywords]. *)
Definition validate_all (top_keywords : list KeywordScore)
  : option (list KeywordScore) :=
  mapM validate top_keywords.

Section Endpoint.
Context {Details : Type}.

(** The [try] block of [_create_domain_summary]. *)
Definition summary_body
(url_results : list (URLAnalysisResponse (Details := Details)))
: option DomainSummary :=
let all_keywords_data := keywords <$> url_results in
cliente_ ←
validate_all (get_top_keywords_by_bucket all_keywords_data cliente 20);
producto_ ←
validate_all
(get_top_keywords_by_bucket all_keywords_data producto_o_post 20);
generales_ ←
validate_all (get_top_keywords_by_bucket all_keywords_data generales_seo 20);
Some {| total_urls := length url_results;
por_tipo := (count_tipo "ecommerce" url_results,
count_tipo "blog" url_results,
count_tipo "mixto" url_results);
top_keywords_cliente := cliente_;
top_keywords_producto := producto_;
top_keywords_generales := generales_ |}.

(** [_create_domain_summary] with its handler, which answers a summary
without counts and without keywords. *)
Definition create_domain_summary
(url_results : list (URLAnalysisResponse (Details := Details)))
: DomainSummary :=
default
{| total_urls := length url_results;
por_tipo := (0, 0, 0);
top_keywords_cliente := [];
top_keywords_producto := [];
top_keywords_generales := [] |}
(summary_body url_results).

(** What [KeywordScore] guarantees of the keywords of an analysed page. *)
Definition valid_page (r : URLAnalysisResponse (Details := Details)) : Prop :=
forall b kw, In kw (get_bucket (keywords r) b) -> Config.field_ok (score kw).

End Endpoint.

End Summary.

(* ===================================================================== *)
(** * Part II: theorems                                                   *)
(* ===================================================================== *)

(** ** Comparisons on rationals *)

Lemma Qltb_true a b : Qltb a b = true <-> (a < b)%Q.
Proof.
  unfold Qltb. rewrite negb_true_iff. split; intros Hab.
  - destruct (Qlt_le_dec a b) as [Hlt|Hle]; [done|].
    apply Qle_bool_iff in Hle. congruence.
  - destruct (Qle_bool b a) eqn:E; [|done].
    apply Qle_bool_iff in E. lra.
Qed.

Lemma Qltb_false a b : Qltb a b = false <-> (b <= a)%Q.
Proof. unfold Qltb. rewrite negb_false_iff. apply Qle_bool_iff. Qed.

Lemma pymax_ge_l a b : (a <= pymax a b)%Q.
Proof.
  unfold pymax. destruct (Qltb a b) eqn:E; [|lra].
  apply Qltb_true in E. lra.
Qed.

Lemma pymin_le_l a b : (pymin a b <= a)%Q.
Proof.
  unfold pymin. destruct (Qltb b a) eqn:E; [|lra].
  apply Qltb_true in E. lra.
Qed.

Lemma pymax_cases a b : pymax a b = a \/ pymax a b = b.
Proof. unfold pymax. destruct (Qltb a b); auto. Qed.

(** ** Configuration: the weight vector *)

Section ConfigFacts.
Import Config.

Lemma pysum_components w :
(pysum (components w) ==
w1_frequency w + w2_tfidf w + w3_cooccurrence w + w4_position_title w
+ w5_similarity_brand w)%Q.
Proof. unfold pysum, components. simpl. ring. Qed.

Lemma py_div_nonzero a b : ~ (b == 0)%Q -> py_div a b = Some (a / b)%Q.
Proof.
intros Hb. unfold py_div. destruct (Qeq_bool b 0) eqn:E; [|done].
apply Qeq_bool_iff in E. contradiction.
Qed.

Lemma normalize_weights_positive (w : ScoringWeights) :
(0 < pysum (components w))%Q ->
normalize_weights w = Some (scaled w (pysum (components w))).
Proof.
intros Ht. unfold normalize_weights, normalize_weights_with.
assert (Hnz : ~ (pysum (components w) == 0)%Q) by lra.
apply Qltb_true in Ht as ->.
rewrite !py_div_nonzero by done. reflexivity.
Qed.

Lemma scaled_sum (w : ScoringWeights) (total : Q) :
(total == pysum (components w))%Q -> ~ (total == 0)%Q ->
(pysum (components (scaled w total)) == 1)%Q.
Proof.
intros Ht Hnz. rewrite pysum_components. rewrite pysum_components in Ht.
unfold scaled; simpl.
transitivity (total / total)%Q; [|field; exact Hnz].
rewrite Ht at 6. field. exact Hnz.
Qed.

Lemma field_ok_div (x total : Q) :
(0 <= x)%Q -> (x <= total)%Q -> (0 < total)%Q -> field_ok (x / total).
Proof.
intros H0 H1 Ht. split.
- apply Qle_shift_div_l; [done | lra].
- apply Qle_shift_div_r; [done | lra].
Qed.



(** C10. On a weight vector whose five components are all zero the
guard is false: the call returns the vector unchanged whatever the
division would do, so it divides nothing. *)
Theorem normalize_weights_all_zero (w : ScoringWeights) :
all_zero w ->
forall div : Q -> Q -> option Q, normalize_weights_with div w = Some w.
Proof.
intros (H1 & H2 & H3 & H4 & H5) div.
unfold normalize_weights_with.
assert (Ht : (pysum (components w) <= 0)%Q).
{ rewrite pysum_components. lra. }
apply Qltb_false in Ht as ->. reflexivity.
Qed.

Lemma normalize_weights_all_zero_witness :
normalize_weights_with no_division zero_weights = Some zero_weights
/\ normalize_weights zero_weights = Some zero_weights.
Proof.
split.
- apply (normalize_weights_all_zero zero_weights); vm_compute; tauto.
- apply (normalize_weights_all_zero zero_weights); vm_compute; tauto.
Defined.

End ConfigFacts.

(** ** Sorting *)

Section SortFacts.
Context {A : Type} (ltb : A -> A -> bool).

Lemma insert_desc_perm x l : Permutation (insert_desc ltb x l) (x :: l).
Proof.
induction l as [|y l IH]; simpl; [done|].
destruct (ltb x y); [|done].
rewrite IH. apply perm_swap.
Qed.

Lemma sort_desc_perm l : Permutation (sort_desc ltb l) l.
Proof.
induction l as [|x l IH]; simpl; [done|].
rewrite insert_desc_perm. by constructor.
Qed.

Lemma sort_desc_length l : length (sort_desc ltb l) = length l.
Proof. apply Permutation_length, sort_desc_perm. Qed.

Lemma sort_desc_In x l : In x (sort_desc ltb l) <-> In x l.
Proof.
split; apply Permutation_in; [|symmetry]; apply sort_desc_perm.
Qed.
End SortFacts.

(** ** Scorer: bucketing *)

Section BucketFacts.
Import Scorer.
Context `{Runtime}.
Variables (page_type : pystr) (brand_info : BrandInfo).
Variable domain_keywords : option (gmap pystr Q).

Local Abbreviation cls t :=
(_classify_keyword_bucket t 0 page_type brand_info domain_keywords).

Lemma classify_ignores_score t s s' :
_classify_keyword_bucket t s page_type brand_info domain_keywords =
_classify_keyword_bucket t s' page_type brand_info domain_keywords.
Proof. reflexivity. Qed.

Lemma get_bucket_append bs b kw b' :
get_bucket (bucket_append bs b kw) b' =
get_bucket bs b' ++ (if bool_decide (b = b') then [kw] else []).
Proof.
destruct b, b'; simpl; try reflexivity; by rewrite app_nil_r.
Qed.

Lemma classify_loop_bucket kws acc b :
get_bucket
(fold_left
(fun buckets keyword_data =>
bucket_append buckets
(_classify_keyword_bucket (term keyword_data) (score keyword_data)
page_type brand_info domain_keywords)
{| term := term keyword_data; score := score keyword_data |})
kws acc) b =
get_bucket acc b ++
List.filter (fun kw => bool_decide (cls (term kw) = b)) kws.
Proof.
revert acc. induction kws as [|kw kws IH]; intros acc; simpl.
- by rewrite app_nil_r.
- rewrite IH, get_bucket_append, <- app_assoc. f_equal.
destruct kw as [t s]; simpl.
destruct (bool_decide _); reflexivity.
Qed.

Lemma classify_all_bucket kws b :
get_bucket (classify_all kws page_type brand_info domain_keywords) b =
List.filter (fun kw => bool_decide (cls (term kw) = b)) kws.
Proof.
unfold classify_all. rewrite classify_loop_bucket. by destruct b.
Qed.

Lemma bucketize_bucket kws b :
get_bucket (bucketize_keywords kws page_type brand_info domain_keywords) b =
sort_and_cap
(List.filter (fun kw => bool_decide (cls (term kw) = b)) kws).
Proof.
rewrite <- classify_all_bucket. destruct b; reflexivity.
Qed.

Lemma sort_and_cap_In kw l : In kw (sort_and_cap l) -> In kw l.
Proof.
unfold sort_and_cap. intros Hin.
apply (sort_desc_In (fun a b => Qltb (score a) (score b))).
rewrite <- (take_drop bucket_cap). apply in_or_app. by left.
Qed.

Lemma sort_and_cap_length l : length (sort_and_cap l) <= bucket_cap.
Proof. unfold sort_and_cap. rewrite length_take. lia. Qed.

Lemma sort_and_cap_all kw l :
length l <= bucket_cap -> In kw l -> In kw (sort_and_cap l).
Proof.
intros Hlen Hin. unfold sort_and_cap.
rewrite take_ge by (rewrite sort_desc_length; lia).
by apply sort_desc_In.
Qed.

End BucketFacts.



(** ** Scorer: the composite score *)

Section ScoringFacts.
Import Config Scorer.
Context `{Runtime}.
Variable normalize_text : pystr -> option pystr.
Variable tokenize_text : pystr -> option (list pystr).
Variable calculate_tfidf_scores :
list pystr -> list pystr -> option (gmap pystr Q).
Variable np_log : Q -> Q.
Variable settings_scoring_weights : ScoringWeights.

Lemma clamp01_bounds x : (0 <= clamp01 x <= 1)%Q.
Proof.
unfold clamp01. split; [apply pymax_ge_l|].
destruct (pymax_cases 0 (pymin 1 x)) as [-> | ->]; [lra|].
apply pymin_le_l.
Qed.

Lemma py_div_nat a n :
n <> 0%nat -> is_Some (py_div a (inject_Z (Z.of_nat n))).
Proof.
intros Hn. rewrite py_div_nonzero; [done|].
unfold Qeq; simpl. lia.
Qed.

Lemma cooccurrence_total keyword text_data :
is_Some (cooccurrence_body keyword text_data).
Proof.
unfold cooccurrence_body.
destruct (fold_left _ _ _) as [c t].
destruct (t =? 0)%nat; [done|].
destruct (_ ++ _) as [|x l] eqn:E; [done|].
destruct (py_div_nat (inject_Z (Z.of_nat c)) (length (x :: l))) as [q ->];
[done|done].
Qed.

Lemma position_total keyword text_data :
is_Some (position_body keyword text_data).
Proof.
unfold position_body.
destruct (title _) as [t|]; [|done].
destruct (negb _); [done|].
destruct (find _ _) as [pos|]; [|done].
destruct (length (str_lower t) =? 0)%nat eqn:E; [done|].
apply Nat.eqb_neq in E.
destruct (py_div_nat (inject_Z (Z.of_nat pos)) _ E) as [q ->]. done.
Qed.

Lemma similarity_total keyword brand_info :
is_Some (similarity_body keyword brand_info).
Proof. unfold similarity_body. by destruct (_ && _). Qed.

(** C3. The score is in [0, 1] for every keyword, page, brand and weight
vector. A factor whose computation raises counts as 0 and the other
four still enter the weighted sum: this is what happens when the
frequency factor or the tf-idf factor fails, the two that call
collaborators; the other three cannot fail. *)
Theorem calculate_keyword_score_bounded keyword text_data brand_info weights :
let w := default settings_scoring_weights weights in
let result :=
calculate_keyword_score normalize_text tokenize_text
calculate_tfidf_scores np_log settings_scoring_weights
keyword text_data brand_info weights in
let freq := _calculate_frequency_score normalize_text tokenize_text np_log keyword text_data in
let tfidf := _calculate_tfidf_score calculate_tfidf_scores keyword text_data in
let cooc := _calculate_cooccurrence_score keyword text_data in
let pos := _calculate_position_score keyword text_data in
let sim := _calculate_similarity_score keyword brand_info in
(0 <= result <= 1)%Q
/\ (frequency_body normalize_text tokenize_text np_log keyword text_data = None ->
result = clamp01 (weighted_sum w 0 tfidf cooc pos sim))
/\ (tfidf_body calculate_tfidf_scores keyword text_data = None ->
result = clamp01 (weighted_sum w freq 0 cooc pos sim))
/\ is_Some (cooccurrence_body keyword text_data)
/\ is_Some (position_body keyword text_data)
/\ is_Some (similarity_body keyword brand_info).
Proof.
intros w result freq tfidf cooc pos sim.
split; [apply clamp01_bounds|].
split.
{ intros Hf. unfold result, calculate_keyword_score.
unfold _calculate_frequency_score at 1. by rewrite Hf. }
split.
{ intros Hf. unfold result, calculate_keyword_score.
unfold _calculate_tfidf_score at 1. by rewrite Hf. }
auto using cooccurrence_total, position_total, similarity_total.
Qed.
End ScoringFacts.

Lemma calculate_keyword_score_bounded_witness :
  let raising_text : pystr -> option pystr := fun _ => None in
  let tokens : pystr -> option (list pystr) := fun _ => Some [] in
  let raising_tfidf : list pystr -> list pystr -> option (gmap pystr Q) :=
    fun _ _ => None in
  let result :=
    @Scorer.calculate_keyword_score ascii_runtime raising_text tokens
      raising_tfidf (fun x => x) Config.default_weights
      (py "laptop") Scorer.sample_text_data Scorer.sample_brand None in
  (0 <= result <= 1)%Q /\
  result =
    Scorer.clamp01
      (Scorer.weighted_sum Config.default_weights 0
         (@Scorer._calculate_tfidf_score raising_tfidf (py "laptop")
            Scorer.sample_text_data)
         (@Scorer._calculate_cooccurrence_score ascii_runtime (py "laptop")
            Scorer.sample_text_data)
         (@Scorer._calculate_position_score ascii_runtime (py "laptop")
            Scorer.sample_text_data)
         (@Scorer._calculate_similarity_score ascii_runtime (py "laptop")
            Scorer.sample_brand)).
Proof.
  intros raising_text tokens raising_tfidf result.
  pose proof (@calculate_keyword_score_bounded ascii_runtime raising_text
                tokens raising_tfidf (fun x => x) Config.default_weights
                (py "laptop") Scorer.sample_text_data Scorer.sample_brand None)
    as (Hbounds & Hfreq & _).
  split; [exact Hbounds|].
  apply Hfreq. reflexivity.
Defined.

(** ** NLP: the length guard of the extraction *)

Section ExtractFacts.
Import NLP.
Context `{Runtime} {Embedding : Type}.
Variable cosine_similarity : Embedding -> Embedding -> Q.
Variable similarity_threshold : Q.
Variable normalize_text : pystr -> option pystr.
Variable _extract_with_yake : pystr -> option (list Keyword).
Variable _extract_with_keybert : pystr -> option (list Keyword).
Variable list_of_set : list pystr -> list pystr.
Variable sentence_transformer : option (pystr -> Embedding).

(** C9. A text that is empty, or shorter than 50 characters once
stripped, yields the empty list, and neither the normalizer nor a
provider has been called. *)
Theorem extract_keywords_short_text (text : pystr) (max_keywords : nat) :
text = [] \/ length (strip text) < 50 ->
extract_keywords cosine_similarity similarity_threshold normalize_text
_extract_with_yake _extract_with_keybert list_of_set
sentence_transformer text max_keywords = ([], []).
Proof.
intros Hshort. unfold extract_keywords.
destruct Hshort as [-> | Hlen]; [reflexivity|].
apply Nat.ltb_lt in Hlen as ->.
by rewrite orb_true_r.
Qed.
End ExtractFacts.

Lemma extract_keywords_short_text_witness :
  @NLP.extract_keywords ascii_runtime unit (fun _ _ => 1%Q) 0.85
    (fun t => Some t) (fun _ => Some []) (fun _ => Some []) (fun l => l)
    (Some (fun _ => tt)) (py "   hola mundo   ") 50 = ([], []).
Proof.
  apply (@extract_keywords_short_text ascii_runtime unit).
  right. vm_compute. lia.
Defined.

(** ** Fetcher: retries and back-off *)

Section FetchFacts.
Import Fetcher.
Context {Response : Type}.
Variable try_get : nat -> Response + exn.

Lemma schedule_segment k : schedule k = segment 0 k ++ [Get k].
Proof.
induction k as [|k IH]; [reflexivity|].
cbn [schedule]. rewrite IH. unfold segment.
rewrite seq_S, fmap_app, concat_app. simpl.
rewrite <- !app_assoc. reflexivity.
Qed.

Lemma segment_S a j :
segment a (S j) = [Get a; Sleep (2 ^ N.of_nat a)] ++ segment (S a) j.
Proof. reflexivity. Qed.

Lemma passes_retryable retries a todo :
retryable try_get a -> a < retries ->
passes try_get retries (a :: todo) =
(fst (passes try_get retries todo),
[Get a; Sleep (2 ^ N.of_nat a)] ++ snd (passes try_get retries todo)).
Proof.
intros (e & He & Hgo) Hlt. simpl. rewrite He.
apply Nat.ltb_lt in Hlt as ->.
destruct (passes try_get retries todo) as [r evs].
destruct e as [c| |]; simpl in *; [|done..].
apply negb_true_iff in Hgo as ->. done.
Qed.

Lemma passes_prefix retries j : forall a m,
(forall x, a <= x < a + j -> retryable try_get x) -> a + j <= retries ->
passes try_get retries (seq a (j + m)) =
(fst (passes try_get retries (seq (a + j) m)),
segment a j ++ snd (passes try_get retries (seq (a + j) m))).
Proof.
induction j as [|j IH]; intros a m Hre Hle.
- rewrite Nat.add_0_r. simpl. by destruct (passes _ _ _).
- simpl seq. rewrite passes_retryable by (try apply Hre; lia).
rewrite IH by (try (intros x Hx; apply Hre); lia).
rewrite segment_S. replace (S a + j) with (a + S j) by lia.
reflexivity.
Qed.

Lemma passes_gets_bound retries todo :
length (List.filter is_get (snd (passes try_get retries todo))) <= length todo.
Proof.
induction todo as [|a todo IH]; simpl; [lia|].
destruct (try_get a) as [r|e]; simpl; [lia|].
destruct (match e with HTTPStatusError c => no_retry_status c | _ => false end);
simpl; [lia|].
destruct (passes try_get retries todo) as [r evs]. simpl in *.
destruct (a <? retries)%nat; simpl; lia.
Qed.

Lemma passes_no_success retries todo :
(forall a, In a todo -> forall r, try_get a <> inl r) ->
fst (passes try_get retries todo) = None.
Proof.
induction todo as [|a todo IH]; intros Hfail; simpl; [done|].
destruct (try_get a) as [r|e] eqn:E.
{ exfalso. eapply Hfail; [by left | exact E]. }
destruct (match e with HTTPStatusError c => no_retry_status c | _ => false end);
[done|].
specialize (IH (fun x Hx => Hfail x (or_intror Hx))).
destruct (passes try_get retries todo) as [r evs]. exact IH.
Qed.

End FetchFacts.


(** ** Main: a domain run without a single analysed page *)

Section MainFacts.
Import Main.
Context {Details : Type}.
Variable validation_error : pystr.

(** C8. When at least one URL was selected and processing none of them
yields a page analysis, the endpoint raises [HTTPException] with status
500 instead of returning a summary; as soon as one page is analysed it
returns a response listing the analysed pages. *)
Theorem analyze_domain_no_valid_results (request_domain : pystr)
(urls_to_process : list pystr)
(process_url : pystr -> gathered (Details := Details)) :
urls_to_process <> [] ->
((forall u, In u urls_to_process -> forall r, process_url u <> Analysed r) ->
analyze_domain validation_error request_domain urls_to_process process_url =
HTTPException 500 (py "No se pudieron procesar URLs válidas"))
/\ ((exists u r, In u urls_to_process /\ process_url u = Analysed r) ->
exists response,
analyze_domain validation_error request_domain urls_to_process
process_url = Return response
/\ urls response <> []).
Proof.
intros Hne. unfold analyze_domain.
destruct urls_to_process as [|u0 rest]; [done|].
set (valid := omap _ _). split.
- intros Hnone.
assert (Hvalid : valid = []).
{ unfold valid. generalize (u0 :: rest) Hnone. clear.
intros l. induction l as [|u l IH]; intros Hnone; [done|].
cbn [fmap list_fmap omap list_omap].
destruct (process_url u) as [r| |] eqn:E.
- exfalso. eapply Hnone; [by left | exact E].
- apply IH. intros x Hx. apply Hnone. by right.
- apply IH. intros x Hx. apply Hnone. by right. }
by rewrite Hvalid.
- intros (u & r & Hin & Hr).
assert (Hvalid : In r valid).
{ unfold valid. revert Hin. generalize (u0 :: rest).
intros l. induction l as [|x l IH]; intros Hin; [done|].
cbn [fmap list_fmap omap list_omap].
destruct Hin as [-> | Hin].
- rewrite Hr. by left.
- destruct (process_url x); [right|..]; by apply IH. }
destruct valid as [|v vs]; [done|].
eexists. split; [reflexivity|]. done.
Qed.
End MainFacts.

Lemma analyze_domain_no_valid_results_witness :
  Main.analyze_domain (Details := unit) [] (py "example.com")
    [py "https://example.com/a"; py "https://example.com/b"]
    (fun _ => Main.Nothing) =
  Main.HTTPException 500 (py "No se pudieron procesar URLs válidas").
Proof.
  apply (analyze_domain_no_valid_results (Details := unit)); [done|].
  intros u _ r. discriminate.
Defined.

(** ** NLP: semantic deduplication *)

Section DedupFacts.
Import NLP.
Context {Embedding : Type}.
Variable cosine_similarity : Embedding -> Embedding -> Q.
Variable similarity_threshold : Q.

Section WithEncoder.
Variable encode : pystr -> Embedding.

Local Abbreviation sim := (similar cosine_similarity similarity_threshold encode).
Local Abbreviation embs kws := (encode <$> (term <$> kws)).
Local Abbreviation inner := (inner_loop cosine_similarity similarity_threshold).
Local Abbreviation outer := (outer_loop cosine_similarity similarity_threshold).

Lemma embedding_lookup (kws : list Keyword) i e :
embs kws !! i = Some e ->
exists k, kws !! i = Some k /\ e = encode (term k).
Proof.
rewrite !list_lookup_fmap. destruct (kws !! i) as [k|]; [|done].
simpl. intros [= <-]. by exists k.
Qed.

Lemma inner_loop_spec (kws : list Keyword) i js : forall rm rm',
inner kws (embs kws) i js rm = Some rm' ->
rm ⊆ rm' /\
(i ∉ rm' -> forall j, In j js -> j ∉ rm' ->
forall ki kj, kws !! i = Some ki -> kws !! j = Some kj -> sim ki kj = false).
Proof.
induction js as [|j js IH]; intros rm rm' Hrun; simpl in Hrun.
{ injection Hrun as <-. split; [done|]. intros _ j []. }
case_bool_decide as Hj.
{ apply IH in Hrun as [Hsub Hpairs]. split; [done|].
intros Hi x [<- | Hx] Hx'; [set_solver | by apply Hpairs]. }
destruct (embs kws !! i) as [ei|] eqn:Ei; [|done].
destruct (embs kws !! j) as [ej|] eqn:Ej; [|done].
simpl in Hrun.
apply embedding_lookup in Ei as (ki & Hki & ->).
apply embedding_lookup in Ej as (kj & Hkj & ->).
destruct (Qltb _ _) eqn:Hsim.
- rewrite Hki, Hkj in Hrun. simpl in Hrun.
destruct (Qleb _ _).
+ apply IH in Hrun as [Hsub Hpairs]. split; [set_solver|].
intros Hi x [<- | Hx] Hx'; [set_solver | by apply Hpairs].
+ injection Hrun as <-. split; [set_solver|]. set_solver.
- apply IH in Hrun as [Hsub Hpairs]. split; [done|].
intros Hi x [<- | Hx] Hx'; [|by apply Hpairs].
intros ki' kj' Hki' Hkj'. unfold similar. congruence.
Qed.

Lemma outer_loop_spec (kws : list Keyword) is_ : forall rm rm',
outer kws (embs kws) is_ rm = Some rm' ->
rm ⊆ rm' /\
(forall i, In i is_ -> i ∉ rm' ->
forall j, i < j < length kws -> j ∉ rm' ->
forall ki kj, kws !! i = Some ki -> kws !! j = Some kj -> sim ki kj = false).
Proof.
induction is_ as [|i is_ IH]; intros rm rm' Hrun; simpl in Hrun.
{ injection Hrun as <-. split; [done|]. intros i []. }
case_bool_decide as Hi.
{ apply IH in Hrun as [Hsub Hpairs]. split; [done|].
intros x [<- | Hx] Hx'; [set_solver | by apply Hpairs]. }
destruct (inner _ _ _ _ _) as [rm1|] eqn:Hinner; [|done].
simpl in Hrun.
apply inner_loop_spec in Hinner as [Hsub1 Hpairs1].
apply IH in Hrun as [Hsub Hpairs]. split; [set_solver|].
intros x [<- | Hx] Hx'; [|by apply Hpairs].
intros j Hj Hj'. apply Hpairs1; [set_solver | | set_solver].
apply in_seq. lia.
Qed.

Lemma keep_indices_In rm (k : Keyword) : forall l i,
In k (keep_indices rm i l) -> exists p, l !! p = Some k /\ (i + p) ∉ rm.
Proof.
induction l as [|x l IH]; intros i Hin; simpl in Hin; [done|].
case_bool_decide as Hi.
- apply IH in Hin as (p & Hp & Hrm). exists (S p).
split; [done|]. by replace (i + S p) with (S i + p) by lia.
- destruct Hin as [-> | Hin].
+ exists 0. split; [done|]. by rewrite Nat.add_0_r.
+ apply IH in Hin as (p & Hp & Hrm). exists (S p).
split; [done|]. by replace (i + S p) with (S i + p) by lia.
Qed.

Lemma keep_indices_pairs rm (R : Keyword -> Keyword -> Prop) : forall l i,
(forall p q a b, p < q -> l !! p = Some a -> l !! q = Some b ->
(i + p) ∉ rm -> (i + q) ∉ rm -> R a b) ->
ForallOrdPairs R (keep_indices rm i l).
Proof.
induction l as [|x l IH]; intros i Hpairs; simpl; [constructor|].
assert (Htail : ForallOrdPairs R (keep_indices rm (S i) l)).
{ apply IH. intros p q a b Hpq Ha Hb Hp Hq.
apply (Hpairs (S p) (S q)); [lia | done | done | |].
- by replace (i + S p) with (S i + p) by lia.
- by replace (i + S q) with (S i + q) by lia. }
case_bool_decide as Hi; [done|].
constructor; [|done].
apply List.Forall_forall. intros k Hk.
apply keep_indices_In in Hk as (p & Hp & Hrm).
apply (Hpairs 0 (S p)); [lia | done | done | |].
- by rewrite Nat.add_0_r.
- by replace (i + S p) with (S i + p) by lia.
Qed.

Lemma keep_indices_empty (l : list Keyword) i : keep_indices ∅ i l = l.
Proof.
revert i. induction l as [|x l IH]; intros i; simpl; [done|].
case_bool_decide; [set_solver|]. by rewrite IH.
Qed.

Lemma ordered_pairs_lookup (R : Keyword -> Keyword -> Prop) l :
ForallOrdPairs R l ->
forall i j a b, i < j -> l !! i = Some a -> l !! j = Some b -> R a b.
Proof.
induction 1 as [|x l Hx Hl IH]; intros i j a b Hij Ha Hb; [done|].
destruct j as [|j]; [lia|]. simpl in Hb.
destruct i as [|i].
- injection Ha as <-. rewrite List.Forall_forall in Hx. apply Hx.
apply list_elem_of_In. by eapply list_elem_of_lookup_2.
- simpl in Ha. apply (IH i j); [lia | done | done].
Qed.

Lemma inner_loop_noop (kws : list Keyword) i js rm' :
(forall j ki kj, In j js -> kws !! i = Some ki -> kws !! j = Some kj ->
sim ki kj = false) ->
inner kws (embs kws) i js ∅ = Some rm' -> rm' = ∅.
Proof.
induction js as [|j js IH]; intros Hdis Hrun; simpl in Hrun.
{ by injection Hrun as <-. }
case_bool_decide as Hj; [set_solver|].
destruct (embs kws !! i) as [ei|] eqn:Ei; [|done].
destruct (embs kws !! j) as [ej|] eqn:Ej; [|done].
simpl in Hrun.
apply embedding_lookup in Ei as (ki & Hki & ->).
apply embedding_lookup in Ej as (kj & Hkj & ->).
assert (Hsim : sim ki kj = false) by (apply (Hdis j); [by left|done..]).
unfold similar in Hsim. rewrite Hsim in Hrun.
apply IH; [|done]. intros x kx ky Hx. apply Hdis. by right.
Qed.

Lemma outer_loop_noop (kws : list Keyword) is_ rm' :
(forall i j ki kj, i < j -> kws !! i = Some ki -> kws !! j = Some kj ->
sim ki kj = false) ->
outer kws (embs kws) is_ ∅ = Some rm' -> rm' = ∅.
Proof.
intros Hdis. induction is_ as [|i is_ IH]; intros Hrun; simpl in Hrun.
{ by injection Hrun as <-. }
case_bool_decide as Hi; [set_solver|].
destruct (inner _ _ _ _ _) as [rm1|] eqn:Hinner; [|done].
simpl in Hrun.
apply inner_loop_noop in Hinner as ->; [by apply IH|].
intros j ki kj Hj. apply Hdis. apply in_seq in Hj. lia.
Qed.

Lemma inner_loop_total (kws : list Keyword) i js : forall rm,
i < length kws -> (forall j, In j js -> j < length kws) ->
is_Some (inner kws (embs kws) i js rm).
Proof.
induction js as [|j js IH]; intros rm Hi Hjs; simpl; [done|].
assert (Hj : j < length kws) by (apply Hjs; by left).
assert (Hjs' : forall x, In x js -> x < length kws)
by (intros x Hx; apply Hjs; by right).
case_bool_decide; [by apply IH|].
destruct (lookup_lt_is_Some_2 kws i Hi) as [ki Hki].
destruct (lookup_lt_is_Some_2 kws j Hj) as [kj Hkj].
rewrite !list_lookup_fmap, Hki, Hkj. simpl.
destruct (Qltb _ _); [|by apply IH].
destruct (Qleb _ _); [by apply IH | done].
Qed.

Lemma outer_loop_total (kws : list Keyword) is_ : forall rm,
(forall i, In i is_ -> i < length kws) ->
is_Some (outer kws (embs kws) is_ rm).
Proof.
induction is_ as [|i is_ IH]; intros rm His; simpl; [done|].
assert (His' : forall x, In x is_ -> x < length kws)
by (intros x Hx; apply His; by right).
case_bool_decide; [by apply IH|].
destruct (inner_loop_total kws i (seq (i + 1) (length kws - (i + 1))) rm)
as [rm1 ->].
- apply His. by left.
- intros j Hj. apply in_seq in Hj. lia.
- simpl. by apply IH.
Qed.

(** The [try] block never raises: the handler of
[_deduplicate_by_similarity] is not what makes it return. *)
Lemma dedup_body_total (kws : list Keyword) :
is_Some (dedup_body cosine_similarity similarity_threshold encode kws).
Proof.
unfold dedup_body.
destruct (outer_loop_total kws (seq 0 (length kws)) ∅) as [rm ->]; [|done].
intros i Hi. apply in_seq in Hi. lia.
Qed.

Lemma dedup_body_pairs (kws out : list Keyword) :
dedup_body cosine_similarity similarity_threshold encode kws = Some out ->
ForallOrdPairs (fun a b => sim a b = false) out.
Proof.
unfold dedup_body. intros Hrun.
destruct (outer _ _ _ _) as [rm|] eqn:Houter; [|done].
injection Hrun as <-.
apply outer_loop_spec in Houter as [_ Hpairs].
apply keep_indices_pairs. intros p q a b Hpq Ha Hb Hp Hq.
apply (Hpairs p) with (j := q); try done.
- apply in_seq. apply lookup_lt_Some in Ha. lia.
- apply lookup_lt_Some in Hb. lia.
Qed.

Lemma dedup_body_noop (kws out : list Keyword) :
ForallOrdPairs (fun a b => sim a b = false) kws ->
dedup_body cosine_similarity similarity_threshold encode kws = Some out ->
out = kws.
Proof.
intros Hdis. unfold dedup_body. intros Hrun.
destruct (outer _ _ _ _) as [rm|] eqn:Houter; [|done].
injection Hrun as <-.
apply outer_loop_noop in Houter as ->; [apply keep_indices_empty|].
intros i j ki kj Hij Hi Hj.
exact (ordered_pairs_lookup _ kws Hdis i j ki kj Hij Hi Hj).
Qed.

End WithEncoder.

(** C2. Deduplicating the output of a deduplication changes nothing:
the survivors of the first run are pairwise below the similarity
threshold, so the second run removes none of them. *)
Theorem deduplicate_by_similarity_idempotent
(sentence_transformer : option (pystr -> Embedding))
(keywords : list Keyword) :
let dedup :=
_deduplicate_by_similarity cosine_similarity similarity_threshold
sentence_transformer in
dedup (dedup keywords) = dedup keywords.
Proof.
intros dedup. unfold dedup, _deduplicate_by_similarity.
destruct (length keywords <=? 1)%nat eqn:Hlen; [by rewrite Hlen|].
destruct sentence_transformer as [enc|]; [|by rewrite Hlen].
destruct (dedup_body _ _ enc keywords) as [out|] eqn:Hbody; simpl.
2: { rewrite Hlen. by rewrite Hbody. }
destruct (length out <=? 1)%nat; [done|].
destruct (dedup_body _ _ enc out) as [out'|] eqn:Hbody'; simpl; [|done].
eapply dedup_body_noop; [|done]. eapply dedup_body_pairs; done.
Qed.
End DedupFacts.

Example deduplicate_laptops :
  NLP._deduplicate_by_similarity NLP.laptop_similarity 0.85 (Some (fun t => t))
    [NLP.top_laptop; NLP.red_shoes; NLP.best_laptop]
  = [NLP.red_shoes; NLP.best_laptop].
Proof. vm_compute. reflexivity. Qed.

(** ** Sitemap: URL selection *)

Section SelectFacts.
Import Sitemap.
Context `{Runtime}.

Local Abbreviation by_relevance :=
(fun a b : UrlData => (relevance_score b <= relevance_score a)%Q).

Lemma relevance_lt_false a b :
relevance_lt a b = false <-> (relevance_score b <= relevance_score a)%Q.
Proof. apply Qltb_false. Qed.

Lemma relevance_lt_true a b :
relevance_lt a b = true <-> (relevance_score a < relevance_score b)%Q.
Proof. apply Qltb_true. Qed.

Lemma insert_by_relevance x l :
StronglySorted by_relevance l ->
StronglySorted by_relevance (insert_desc relevance_lt x l).
Proof.
induction 1 as [|y l Hl IH Hy]; simpl.
{ repeat constructor. }
destruct (relevance_lt x y) eqn:E.
- constructor; [exact IH|].
rewrite insert_desc_perm. constructor; [|exact Hy].
apply relevance_lt_true in E. lra.
- apply relevance_lt_false in E.
constructor; [by constructor|].
constructor; [exact E|].
eapply Forall_impl; [exact Hy|]. simpl. intros z Hz. lra.
Qed.

Lemma sort_by_relevance l :
StronglySorted by_relevance (sort_desc relevance_lt l).
Proof.
induction l as [|x l IH]; simpl; [constructor|].
by apply insert_by_relevance.
Qed.

(** In a list sorted by relevance, a class of records that outranks all
the others comes first. *)
Lemma sorted_split (f : UrlData -> bool) l :
StronglySorted by_relevance l ->
(forall p b, In p l -> In b l -> f p = true -> f b = false ->
(relevance_score b < relevance_score p)%Q) ->
l = List.filter f l ++ List.filter (fun u => negb (f u)) l.
Proof.
induction 1 as [|x l Hl IH Hx]; intros Hrank; simpl; [done|].
assert (Hrank' : forall p b, In p l -> In b l -> f p = true -> f b = false ->
(relevance_score b < relevance_score p)%Q).
{ intros p b Hp Hb. apply Hrank; by right. }
destruct (f x) eqn:Fx; simpl.
- f_equal. by apply IH.
- assert (Hnone : List.filter f l = []).
{ destruct (List.filter f l) as [|p ps] eqn:E; [done|]. exfalso.
assert (Hp : In p (List.filter f l)) by (rewrite E; by left).
apply filter_In in Hp as [Hp Fp].
rewrite List.Forall_forall in Hx. specialize (Hx p Hp). simpl in Hx.
specialize (Hrank p x (or_intror Hp) (or_introl eq_refl) Fp Fx). lra. }
rewrite Hnone. simpl. f_equal.
rewrite (IH Hrank') at 1. by rewrite Hnone.
Qed.

Lemma recent_filter_naive now urls :
all_naive urls ->
recent_filter {| micros := now - days 5; aware := false |} urls =
Some (List.filter (recentb now) urls).
Proof.
induction urls as [|u urls IH]; intros Hnaive; [done|].
cbn [recent_filter]. rewrite IH by (intros x d Hx; apply Hnaive; by right).
unfold is_recent, recentb. simpl.
destruct (lastmod u) as [d|] eqn:E; [|done].
unfold datetime_ge. rewrite (Hnaive u d) by (by left || done). simpl.
by destruct (_ <=? _)%Z.
Qed.

Lemma recent_filter_aware now urls u d :
In u urls -> lastmod u = Some d -> aware d = true ->
recent_filter {| micros := now - days 5; aware := false |} urls = None.
Proof.
induction urls as [|x urls IH]; intros Hin Hd Ha; [done|].
cbn [recent_filter]. destruct Hin as [-> | Hin].
- unfold is_recent. rewrite Hd. unfold datetime_ge. by rewrite Ha.
- rewrite (IH Hin Hd Ha). by destruct (is_recent _ x).
Qed.

Lemma filter_length_impl {A} (f g : A -> bool) l :
(forall x, In x l -> f x = true -> g x = true) ->
length (List.filter f l) <= length (List.filter g l).
Proof.
induction l as [|x l IH]; intros Himp; simpl; [lia|].
specialize (IH (fun y Hy => Himp y (or_intror Hy))).
destruct (f x) eqn:Fx.
- rewrite (Himp x (or_introl eq_refl) Fx). simpl. lia.
- destruct (g x); simpl; lia.
Qed.

Lemma filter_perm {A} (f : A -> bool) l l' :
Permutation l l' -> Permutation (List.filter f l) (List.filter f l').
Proof.
induction 1 as [|x l l' Hl IH|x y l|l l' l'' H1 IH1 H2 IH2]; simpl.
- done.
- destruct (f x); [by constructor | done].
- destruct (f x), (f y); try done. apply perm_swap.
- by etransitivity.
Qed.

Lemma filter_none {A} (f : A -> bool) l :
(forall x, In x l -> f x = false) -> List.filter f l = [].
Proof.
induction l as [|x l IH]; intros Hf; simpl; [done|].
rewrite (Hf x) by (by left). apply IH. intros y Hy. apply Hf. by right.
Qed.

Lemma filter_all {A} (f : A -> bool) l :
(forall x, In x l -> f x = true) -> List.filter f l = l.
Proof.
induction l as [|x l IH]; intros Hf; simpl; [done|].
rewrite (Hf x) by (by left). f_equal. apply IH.
intros y Hy. apply Hf. by right.
Qed.

(** *** The dictionary of categories *)

Lemma dict_get_append d c' u c :
dict_get (dict_append d c' u) c =
if bool_decide (c' = c) then Some (default [] (dict_get d c) ++ [u])
else dict_get d c.
Proof.
induction d as [|[k l] d IH]; simpl.
- repeat case_bool_decide; done.
- repeat case_bool_decide; simpl; repeat case_bool_decide;
subst; try done; rewrite IH; by repeat case_bool_decide.
Qed.

Lemma dict_get_loop urls : forall d c,
dict_get
(fold_left (fun d url_data => dict_append d (category_of (url url_data)) url_data)
urls d) c =
match dict_get d c, List.filter (is_in c) urls with
| None, [] => None
| o, l => Some (default [] o ++ l)
end.
Proof.
induction urls as [|u urls IH]; intros d c; simpl.
{ destruct (dict_get d c); [by rewrite app_nil_r | done]. }
rewrite IH, dict_get_append.
destruct (is_in c u) eqn:E; unfold is_in, category_of_record in E.
- apply bool_decide_eq_true in E. rewrite bool_decide_eq_true_2 by done.
simpl. rewrite <- app_assoc. simpl. by destruct (dict_get d c).
- apply bool_decide_eq_false in E. by rewrite bool_decide_eq_false_2.
Qed.

Lemma dict_get_sorted (d : list (category * list UrlData)) c :
dict_get ((fun '(c, l) => (c, sort_desc category_key_lt l)) <$> d) c =
sort_desc category_key_lt <$> dict_get d c.
Proof.
induction d as [|[k l] d IH]; simpl; [done|].
case_bool_decide; [done | exact IH].
Qed.

Lemma dict_get_categorize urls dom c :
dict_get (_categorize_urls urls dom) c =
match List.filter (is_in c) urls with
| [] => None
| l => Some (sort_desc category_key_lt l)
end.
Proof.
unfold _categorize_urls. rewrite dict_get_sorted, dict_get_loop. simpl.
by destruct (List.filter _ _).
Qed.

Lemma concat_dict_append d c u :
Permutation (concat (snd <$> dict_append d c u)) (concat (snd <$> d) ++ [u]).
Proof.
induction d as [|[k l] d IH]; simpl; [done|].
case_bool_decide; simpl.
- rewrite <- !app_assoc. apply Permutation_app_head, Permutation_app_comm.
- rewrite IH. by rewrite app_assoc.
Qed.

Lemma concat_categorize urls dom :
Permutation (concat (snd <$> _categorize_urls urls dom)) urls.
Proof.
unfold _categorize_urls.
transitivity
(concat (snd <$> fold_left
(fun d url_data => dict_append d (category_of (url url_data)) url_data)
urls [])).
{ generalize (fold_left
(fun d url_data => dict_append d (category_of (url url_data)) url_data)
urls []).
intros d. induction d as [|[k l] d IH]; simpl; [done|].
by rewrite IH, sort_desc_perm. }
change urls with (concat (snd <$> ([] : list (category * list UrlData))) ++ urls) at 2.
generalize ([] : list (category * list UrlData)).
induction urls as [|u urls IH]; intros d; simpl.
- by rewrite app_nil_r.
- rewrite IH, concat_dict_append, <- app_assoc. done.
Qed.

(** *** The top-off loop *)

Lemma fill_remaining_spec max_urls l : forall sel,
List.NoDup (url <$> l) ->
fill_remaining max_urls l sel =
sel ++ take (max_urls - length sel)
(List.filter (fun x => negb (mem x sel)) (url <$> l)).
Proof.
induction l as [|u l IH]; intros sel Hnd; simpl.
{ by rewrite take_nil, app_nil_r. }
apply List.NoDup_cons_iff in Hnd as [Hu Hnd].
destruct (mem (url u) sel) eqn:Hmem; simpl; [by apply IH|].
destruct (length sel <? max_urls)%nat eqn:Hroom.
- apply Nat.ltb_lt in Hroom. rewrite IH by done.
rewrite length_app. simpl.
replace (max_urls - length sel) with (S (max_urls - (length sel + 1))) by lia.
simpl. rewrite <- app_assoc. simpl. do 3 f_equal.
apply filter_ext_in. intros x Hx. f_equal. unfold mem.
apply bool_decide_ext. rewrite elem_of_app, list_elem_of_singleton.
split; [|by left]. intros [?| ->]; [done|].
exfalso. by apply Hu.
- apply Nat.ltb_ge in Hroom. rewrite IH by done.
replace (max_urls - length sel) with 0 by lia. done.
Qed.

Lemma remove_selected_perm (L : list pystr) x y :
List.NoDup L -> In x L -> ~ In y L ->
Permutation (x :: List.filter (fun z => negb (mem z [x; y])) L) L.
Proof.
induction L as [|z L IH]; intros Hnd Hx Hy; [done|].
apply List.NoDup_cons_iff in Hnd as [Hz Hnd]. simpl.
destruct (decide (z = x)) as [-> | Hzx].
- unfold mem at 1. rewrite bool_decide_eq_true_2 by (by left). simpl.
rewrite filter_all; [done|].
intros w Hw. apply negb_true_iff, bool_decide_eq_false.
rewrite !elem_of_cons, elem_of_nil.
intros [-> | [-> | []]]; [done|]. apply Hy. by right.
- unfold mem at 1. rewrite bool_decide_eq_false_2; simpl.
+ rewrite perm_swap. constructor. apply IH; [done | | ].
* by destruct Hx.
* intros ?. apply Hy. by right.
+ rewrite !elem_of_cons, elem_of_nil.
intros [? | [-> | []]]; [done|]. apply Hy. by left.
Qed.

(** What the recency filter returns when no comparison raises. *)
Lemma recent_filter_Some now urls recent :
recent_filter {| micros := now - days 5; aware := false |} urls = Some recent ->
recent = List.filter (recentb now) urls.
Proof.
revert recent. induction urls as [|u urls IH]; intros recent Hrun.
{ by injection Hrun as <-. }
cbn [recent_filter] in Hrun.
destruct (is_recent _ u) as [keep|] eqn:Hkeep; [|done].
destruct (recent_filter _ urls) as [rest|]; [|done].
simpl in Hrun. injection Hrun as <-. rewrite (IH rest eq_refl). simpl.
assert (keep = recentb now u) as ->; [|done].
unfold is_recent, recentb in *. destruct (lastmod u) as [d|].
- unfold datetime_ge in Hkeep. simpl in Hkeep.
destruct (Bool.eqb _ _); [|done]. by injection Hkeep as <-.
- by injection Hkeep as <-.
Qed.

(** *** The scenario of three products and two blog posts *)

Section Scenario.
Variable urls : list UrlData.
Hypothesis Hnd : List.NoDup (url <$> urls).
Hypothesis Hp3 : length (List.filter (is_in products) urls) = 3.
Hypothesis Hb2 : length (List.filter (is_in blog) urls) = 2.
Hypothesis Hcls : forall u, In u urls ->
category_of_record u = products \/ category_of_record u = blog.
Hypothesis Hrank : products_outrank_blogs urls.

Lemma is_in_true c u : is_in c u = true <-> category_of_record u = c.
Proof. unfold is_in. apply bool_decide_eq_true. Qed.

Lemma is_in_false c u : is_in c u = false <-> category_of_record u <> c.
Proof. unfold is_in. apply bool_decide_eq_false. Qed.

Lemma not_product_blog u :
In u urls -> negb (is_in products u) = is_in blog u.
Proof using All.
intros Hu. destruct (Hcls u Hu) as [Hc | Hc].
- rewrite (proj2 (is_in_true products u) Hc).
symmetry. apply is_in_false. by rewrite Hc.
- rewrite (proj2 (is_in_true blog u) Hc).
apply negb_true_iff, is_in_false. by rewrite Hc.
Qed.

(** A list with the records of the sitemap, sorted by relevance, has the
three products first and the two blog posts after them. *)
Lemma sorted_products_first l :
Permutation l urls -> StronglySorted by_relevance l ->
exists P' b b',
l = P' ++ [b; b']
/\ Permutation P' (List.filter (is_in products) urls)
/\ In b urls /\ category_of_record b = blog.
Proof using All.
intros Hperm Hsorted.
assert (Hin : forall u, In u l -> In u urls).
{ intros u. apply Permutation_in. done. }
pose proof (sorted_split (is_in products) l Hsorted) as Hsplit.
rewrite Hsplit.
2: { intros p b Hp Hb Fp Fb. apply Hrank; [by apply Hin | by apply Hin | |].
- by apply is_in_true.
- apply is_in_true. rewrite <- not_product_blog by (by apply Hin).
by rewrite Fb. }
assert (HB : Permutation (List.filter (fun u => negb (is_in products u)) l)
(List.filter (is_in blog) urls)).
{ rewrite (filter_perm _ _ _ Hperm). apply Permutation_refl'.
apply filter_ext_in. intros u Hu. by apply not_product_blog. }
destruct (List.filter (fun u => negb (is_in products u)) l)
as [|b [|b' [|]]] eqn:EB;
try (apply Permutation_length in HB; rewrite Hb2 in HB; simpl in HB; lia).
exists (List.filter (is_in products) l), b, b'.
split; [done|]. split; [by apply filter_perm|].
assert (Hb : In b (List.filter (is_in blog) urls)).
{ eapply Permutation_in; [exact HB | by left]. }
apply filter_In in Hb as [Hb Hblog]. split; [done|]. by apply is_in_true.
Qed.

(** The fallback: the four most relevant records. *)
Lemma select_by_relevance_scenario :
all_products_one_blog urls (_select_by_relevance urls 4).
Proof using All.
unfold _select_by_relevance.
destruct (sorted_products_first (sort_desc relevance_lt urls))
as (P' & b & b' & -> & HP & Hb & Hblog).
{ apply sort_desc_perm. }
{ apply sort_by_relevance. }
exists b. split; [done|]. split; [done|].
assert (Hlen : length P' = 3) by (by rewrite (Permutation_length HP)).
change 4 with (3 + 1). rewrite (take_app_add' P' [b; b'] 3 1) by done.
simpl. rewrite fmap_app. simpl.
apply Permutation_app_tail. by apply Permutation_map.
Qed.

Lemma dict_get_categorize_empty dom c :
List.filter (is_in c) urls = [] ->
dict_get (_categorize_urls urls dom) c = None.
Proof. intros E. by rewrite dict_get_categorize, E. Qed.

Lemma dict_get_categorize_nonempty dom c :
List.filter (is_in c) urls <> [] ->
dict_get (_categorize_urls urls dom) c =
Some (sort_desc category_key_lt (List.filter (is_in c) urls)).
Proof.
intros E. rewrite dict_get_categorize.
destruct (List.filter (is_in c) urls); [done | done].
Qed.

Lemma no_other_category c :
c <> products -> c <> blog -> List.filter (is_in c) urls = [].
Proof using All.
intros Hp Hb. apply filter_none. intros u Hu. apply is_in_false.
destruct (Hcls u Hu); congruence.
Qed.

(** The selection by categories: the top product and the top blog post
fill the two quotas of one, and the top-off adds the other two
products before it reaches a blog post. *)
Lemma select_by_categories_scenario dom :
all_products_one_blog urls
(_select_by_categories (_categorize_urls urls dom) 4).
Proof using All.
set (ps := List.filter (is_in products) urls) in *.
set (bs := List.filter (is_in blog) urls) in *.
pose proof (sort_desc_length category_key_lt ps) as Hlps.
pose proof (sort_desc_length category_key_lt bs) as Hlbs.
rewrite Hp3 in Hlps. rewrite Hb2 in Hlbs.
destruct (sort_desc category_key_lt ps) as [|p1 [|p2 [|p3 [|]]]] eqn:Eps;
try (simpl in Hlps; lia).
destruct (sort_desc category_key_lt bs) as [|b1 [|b2 [|]]] eqn:Ebs;
try (simpl in Hlbs; lia).
assert (Hp1 : In p1 urls /\ category_of_record p1 = products).
{ assert (Hin : In p1 ps).
{ apply (sort_desc_In category_key_lt). rewrite Eps. by left. }
apply filter_In in Hin as [? ?]. split; [done | by apply is_in_true]. }
assert (Hb1 : In b1 urls /\ category_of_record b1 = blog).
{ assert (Hin : In b1 bs).
{ apply (sort_desc_In category_key_lt). rewrite Ebs. by left. }
apply filter_In in Hin as [? ?]. split; [done | by apply is_in_true]. }
destruct Hp1 as [Hp1 Hp1c]. destruct Hb1 as [Hb1 Hb1c].
assert (Hquota :
select_quotas (_categorize_urls urls dom) 4 = [url p1; url b1]).
{ unfold select_quotas, priority_categories. cbn [fold_left].
rewrite (dict_get_categorize_nonempty dom products)
by (fold ps; intros E; by rewrite E in Hp3).
rewrite (dict_get_categorize_nonempty dom blog)
by (fold bs; intros E; by rewrite E in Hb2).
rewrite !dict_get_categorize_empty by (by apply no_other_category).
fold ps bs. rewrite Eps, Ebs. reflexivity. }
unfold _select_by_categories. rewrite Hquota.
change (length [url p1; url b1] <? 4)%nat with true. cbv iota.
set (all := sort_desc relevance_lt (concat (snd <$> _categorize_urls urls dom))).
assert (Hperm : Permutation all urls).
{ unfold all. by rewrite sort_desc_perm, concat_categorize. }
destruct (sorted_products_first all Hperm (sort_by_relevance _))
as (P' & b & b' & Hall & HP & _ & _).
assert (Hnd' : List.NoDup (url <$> all)).
{ eapply Permutation_NoDup; [|exact Hnd].
apply Permutation_map. by symmetry. }
rewrite fill_remaining_spec by done.
change (4 - length [url p1; url b1]) with 2.
rewrite Hall. rewrite Hall in Hnd'.
rewrite fmap_app, List.filter_app.
rewrite fmap_app in Hnd'. apply NoDup_app_remove_r in Hnd'.
set (L := url <$> P') in *.
set (FP := List.filter (fun x => negb (mem x [url p1; url b1])) L).
assert (HL : Permutation L (url <$> ps)).
{ unfold L. by apply Permutation_map. }
assert (Hrem : Permutation (url p1 :: FP) L).
{ apply remove_selected_perm; [done | |].
- eapply Permutation_in; [symmetry; exact HL|].
apply in_map. apply filter_In. split; [done | by apply is_in_true].
- intros Hin. eapply Permutation_in in Hin; [|exact HL].
apply in_map_iff in Hin as (x & Hx & Hin).
apply filter_In in Hin as [_ Hxc]. apply is_in_true in Hxc.
unfold category_of_record in *. rewrite Hx in Hxc. congruence. }
assert (HlenFP : length FP = 2).
{ apply Permutation_length in Hrem, HL. simpl in Hrem.
rewrite length_fmap in HL. fold ps in Hp3. lia. }
rewrite (take_app_length' FP _ 2) by done.
rewrite take_ge by (rewrite length_app; simpl; lia).
exists b1. split; [done|]. split; [done|].
fold ps. rewrite <- HL, <- Hrem. simpl.
constructor. apply Permutation_cons_append.
Qed.

End Scenario.

(** C5, as amended. For a sitemap of exactly three product URLs (priority
0.9, modified today) and two blog URLs (priority 0.5, modified 30 days
ago) in which every product URL has a larger relevance score than every
blog URL, the selection with [max_urls = 4] consists of the three
product URLs and one blog URL, whether or not the dates carry a time
zone. *)
Theorem select_scenario_products_outrank (now : Z) (urls : list UrlData)
(domain : pystr) :
scenario now urls -> products_outrank_blogs urls ->
all_products_one_blog urls (_select_intelligent_urls now urls domain 4).
Proof.
intros (Hnd & Hp3 & Hb2 & Hrec) Hrank.
assert (Hcls : forall u, In u urls ->
category_of_record u = products \/ category_of_record u = blog).
{ intros u Hu. destruct (Hrec u Hu) as [_ [(? & _) | (? & _)]]; auto. }
unfold _select_intelligent_urls, urls_to_categorize.
destruct (recent_filter _ urls) as [recent|] eqn:Hrecent; simpl.
- apply recent_filter_Some in Hrecent as ->.
assert (Hfew : length (List.filter (recentb now) urls) < 4).
{ apply Nat.lt_succ_r. rewrite <- Hp3.
apply filter_length_impl. intros u Hu Hr. apply is_in_true.
destruct (Hrec u Hu) as [_ [(? & _) | (_ & _ & d & Hd & Hm)]]; [done|].
exfalso. unfold recentb in Hr. rewrite Hd, Hm in Hr.
apply Z.leb_le in Hr. unfold days in Hr. lia. }
apply Nat.ltb_lt in Hfew as ->.
by apply select_by_categories_scenario.
- by apply select_by_relevance_scenario.
Qed.

(** *** The budget, and the candidates when few records are recent *)

Lemma select_intelligent_urls_length (now : Z) (urls : list UrlData)
(domain : pystr) (max_urls : nat) :
length (_select_intelligent_urls now urls domain max_urls) <= max_urls.
Proof.
unfold _select_intelligent_urls.
destruct (urls_to_categorize _ _ _) as [candidates|].
- unfold _select_by_categories. rewrite length_take. lia.
- unfold _select_by_relevance. rewrite length_fmap, length_take. lia.
Qed.

(** When the dates can be compared with the clock and fewer than
[max_urls] records were modified in the last five days, recency is not
used at all: the selection is the selection by categories over every
record of the sitemap. *)
Lemma select_intelligent_urls_few_recent (now : Z) (urls : list UrlData)
(domain : pystr) (max_urls : nat) :
all_naive urls ->
length (List.filter (recentb now) urls) < max_urls ->
_select_intelligent_urls now urls domain max_urls =
_select_by_categories (_categorize_urls urls domain) max_urls.
Proof.
intros Hnaive Hfew. unfold _select_intelligent_urls, urls_to_categorize.
rewrite recent_filter_naive by done. simpl.
by apply Nat.ltb_lt in Hfew as ->.
Qed.

Lemma select_intelligent_urls_enough_recent (now : Z) (urls : list UrlData)
(domain : pystr) (max_urls : nat) :
all_naive urls ->
max_urls <= length (List.filter (recentb now) urls) ->
_select_intelligent_urls now urls domain max_urls =
_select_by_categories
(_categorize_urls (List.filter (recentb now) urls) domain) max_urls.
Proof.
intros Hnaive Hmany. unfold _select_intelligent_urls, urls_to_categorize.
rewrite recent_filter_naive by done. simpl.
by apply Nat.ltb_ge in Hmany as ->.
Qed.

(** One record whose date carries a time zone is enough for the recency
test to raise: the handler then ignores both recency and categories and
returns the [max_urls] most relevant records. *)
Lemma select_intelligent_urls_aware (now : Z) (urls : list UrlData)
(domain : pystr) (max_urls : nat) u d :
In u urls -> lastmod u = Some d -> aware d = true ->
_select_intelligent_urls now urls domain max_urls =
_select_by_relevance urls max_urls.
Proof.
intros Hu Hd Ha. unfold _select_intelligent_urls, urls_to_categorize.
by rewrite (recent_filter_aware now urls u d Hu Hd Ha).
Qed.

End SelectFacts.


Ltac distinct_strings :=
  repeat (constructor;
          [ let Hin := fresh "Hin" in
            simpl; intros Hin;
            repeat (destruct Hin as [Hin | Hin]; [discriminate Hin|]);
            exact Hin
          | ]);
  constructor.

(** One goal per record of a concrete sitemap. *)
Ltac each_record Hu :=
  repeat (destruct Hu as [<- | Hu]; [|]); [.. | destruct Hu].

Ltac scenario_by_evaluation :=
  split; [|split; [|split]];
  [ vm_compute; distinct_strings
  | vm_compute; reflexivity
  | vm_compute; reflexivity
  | let u := fresh "u" in
    let Hu := fresh "Hu" in
    intros u Hu; each_record Hu;
    (split; [vm_compute; reflexivity|]);
    first
      [ left; split; [vm_compute; reflexivity|]; split; [reflexivity|];
        eexists; split; [reflexivity|]; vm_compute; split; discriminate
      | right; split; [vm_compute; reflexivity|]; split; [reflexivity|];
        eexists; split; [reflexivity|]; vm_compute; reflexivity ] ].

Lemma select_scenario_products_outrank_witness :
  Sitemap.all_products_one_blog (H := ascii_runtime)
    Sitemap.products_and_posts
    (Sitemap._select_intelligent_urls (H := ascii_runtime) Sitemap.noon
       Sitemap.products_and_posts (py "https://example.com") 4).
Proof.
  apply (select_scenario_products_outrank (H := ascii_runtime)).
  - scenario_by_evaluation.
  - intros p b Hp Hb Hpc Hbc.
    each_record Hp; each_record Hb;
      first [ vm_compute in Hpc; discriminate Hpc
            | vm_compute in Hbc; discriminate Hbc
            | vm_compute; reflexivity ].
Defined.

(** The hypothesis on the relevance scores is needed. A sitemap of the
    same shape whose three shop pages score 0.77 and whose two guides
    score 0.80: after the two quotas of one, the top-off takes the second
    guide before a shop page, and [/shop/c] is left out. *)
Lemma select_scenario_blogs_outrank :
  Sitemap.scenario (H := ascii_runtime) Sitemap.noon Sitemap.shop_and_guides
  /\ ~ Sitemap.all_products_one_blog (H := ascii_runtime)
         Sitemap.shop_and_guides
         (Sitemap._select_intelligent_urls (H := ascii_runtime) Sitemap.noon
            Sitemap.shop_and_guides (py "https://example.com") 4).
Proof.
  split; [scenario_by_evaluation|].
  intros (b & _ & _ & Hperm).
  assert (Hc : In (py "https://example.com/shop/c")
                 (Sitemap._select_intelligent_urls (H := ascii_runtime)
                    Sitemap.noon Sitemap.shop_and_guides
                    (py "https://example.com") 4)).
  { eapply Permutation_in; [symmetry; exact Hperm|].
    apply in_or_app. left. vm_compute. tauto. }
  vm_compute in Hc.
  repeat (destruct Hc as [Hc | Hc]; [discriminate Hc|]). exact Hc.
Qed.

(** A sitemap whose dates carry a time zone. One record of three is
    recent, fewer than the budget of 2. The comparison of the zoned dates
    with the naive clock raises, and the handler returns the two most
    relevant records, both products; categorizing the full set selects
    the top product and the blog post, which is what the same records
    with naive dates yield. *)
Lemma select_intelligent_urls_zoned_dates :
  let select := Sitemap._select_intelligent_urls (H := ascii_runtime) in
  let domain := py "https://example.com" in
  length (List.filter (Sitemap.recentb Sitemap.noon) (Sitemap.zoned true)) = 1
  /\ select Sitemap.noon (Sitemap.zoned true) domain 2 =
     [py "https://example.com/product/a"; py "https://example.com/product/b"]
  /\ Sitemap._select_by_categories
       (Sitemap._categorize_urls (H := ascii_runtime) (Sitemap.zoned true) domain) 2 =
     [py "https://example.com/product/a"; py "https://example.com/blog/c"]
  /\ select Sitemap.noon (Sitemap.zoned false) domain 2 =
     [py "https://example.com/product/a"; py "https://example.com/blog/c"].
Proof. repeat split; vm_compute; reflexivity. Qed.

(** ** NLP: what the deduplication keeps *)

Section DedupKeeps.
Import NLP.
Context {Embedding : Type}.
Variable cosine_similarity : Embedding -> Embedding -> Q.
Variable similarity_threshold : Q.

Local Abbreviation dedup :=
(_deduplicate_by_similarity cosine_similarity similarity_threshold).

(** With a loaded model, no keyword of the result is similar, above the
threshold, to a keyword that follows it in the result. *)
Theorem deduplicate_survivors_dissimilar (encode : pystr -> Embedding)
(keywords : list Keyword) :
ForallOrdPairs
(fun a b => similar cosine_similarity similarity_threshold encode a b = false)
(dedup (Some encode) keywords).
Proof.
unfold _deduplicate_by_similarity.
destruct (length keywords <=? 1)%nat eqn:Hlen.
- apply Nat.leb_le in Hlen.
destruct keywords as [|k [|k' rest]]; [constructor | | simpl in Hlen; lia].
constructor; constructor.
- destruct (dedup_body_total cosine_similarity similarity_threshold encode
keywords) as [out Hout].
rewrite Hout. simpl. by eapply dedup_body_pairs.
Qed.

Lemma keep_indices_sublist rm (l : list Keyword) : forall i,
sublist (keep_indices rm i l) l.
Proof.
induction l as [|k l IH]; intros i; simpl; [constructor|].
case_bool_decide; [apply sublist_cons | apply sublist_skip]; apply IH.
Qed.

Lemma dedup_result_sublist
(sentence_transformer : option (pystr -> Embedding))
(keywords : list Keyword) :
sublist (dedup sentence_transformer keywords) keywords.
Proof.
unfold _deduplicate_by_similarity.
destruct (length keywords <=? 1)%nat; [done|].
destruct sentence_transformer as [encode|]; [|done].
unfold dedup_body.
destruct (outer_loop _ _ _ _ _ _) as [rm|]; simpl; [|done].
apply keep_indices_sublist.
Qed.

(** The result is the input with some keywords left out: nothing is
added, changed or reordered. *)
Theorem deduplicate_sublist
(sentence_transformer : option (pystr -> Embedding))
(keywords : list Keyword) :
sublist (dedup sentence_transformer keywords) keywords.
Proof. apply dedup_result_sublist. Qed.

Lemma inner_loop_beaten (kws : list Keyword) (embs : list Embedding) i js :
forall rm rm',
(forall j, In j js -> i < j) ->
(forall x, x ∈ rm -> beaten kws x) ->
inner_loop cosine_similarity similarity_threshold kws embs i js rm = Some rm' ->
forall x, x ∈ rm' -> beaten kws x.
Proof.
induction js as [|j js IH]; intros rm rm' Hjs Hrm Hrun; simpl in Hrun.
{ by injection Hrun as <-. }
assert (Hij : i < j) by (apply Hjs; by left).
assert (Hjs' : forall x, In x js -> i < x) by (intros x Hx; apply Hjs; by right).
case_bool_decide; [by eapply IH|].
destruct (embs !! i) as [ei|]; [|done].
destruct (embs !! j) as [ej|]; [|done]. simpl in Hrun.
destruct (Qltb _ _); [|by eapply IH].
destruct (kws !! i) as [ki|] eqn:Hki; [|done].
destruct (kws !! j) as [kj|] eqn:Hkj; [|done]. simpl in Hrun.
destruct (Qleb (score kj) (score ki)) eqn:Hle.
- eapply IH; [done | | exact Hrun].
intros x Hx. apply elem_of_union in Hx as [Hx | Hx]; [|by apply Hrm].
apply elem_of_singleton in Hx as ->.
exists i, kj, ki. repeat split; try done. left. split; [done|].
by apply Qle_bool_iff.
- injection Hrun as <-. intros x Hx.
apply elem_of_union in Hx as [Hx | Hx]; [|by apply Hrm].
apply elem_of_singleton in Hx as ->.
exists j, ki, kj. repeat split; try done. right. split; [done|].
unfold Qleb in Hle.
destruct (Qlt_le_dec (score ki) (score kj)) as [?|Hge]; [done|].
apply Qle_bool_iff in Hge. congruence.
Qed.

Lemma outer_loop_beaten (kws : list Keyword) (embs : list Embedding) is_ :
forall rm rm',
(forall x, x ∈ rm -> beaten kws x) ->
outer_loop cosine_similarity similarity_threshold kws embs is_ rm = Some rm' ->
forall x, x ∈ rm' -> beaten kws x.
Proof.
induction is_ as [|i is_ IH]; intros rm rm' Hrm Hrun; simpl in Hrun.
{ by injection Hrun as <-. }
case_bool_decide; [by eapply IH|].
destruct (inner_loop _ _ _ _ _ _ _) as [rm1|] eqn:Hinner; [|done].
simpl in Hrun. eapply IH; [|exact Hrun].
eapply inner_loop_beaten; [|exact Hrm|exact Hinner].
intros j Hj. apply in_seq in Hj. lia.
Qed.

Lemma keep_indices_lookup rm (k : Keyword) : forall l i p,
l !! p = Some k -> (i + p) ∉ rm -> In k (keep_indices rm i l).
Proof.
induction l as [|x l IH]; intros i p Hp Hrm; [done|]. simpl.
destruct p as [|p].
- injection Hp as ->. rewrite Nat.add_0_r in Hrm.
rewrite bool_decide_eq_false_2 by done. by left.
- simpl in Hp. replace (i + S p) with (S i + p) in Hrm by lia.
case_bool_decide; [|right]; by eapply IH.
Qed.

(** The first keyword with the highest score is never removed. *)
Theorem deduplicate_keeps_first_best
(sentence_transformer : option (pystr -> Embedding))
(keywords : list Keyword) (i : nat) (best : Keyword) :
keywords !! i = Some best ->
(forall j kj, keywords !! j = Some kj -> (score kj <= score best)%Q) ->
(forall j kj, j < i -> keywords !! j = Some kj -> (score kj < score best)%Q) ->
In best (dedup sentence_transformer keywords).
Proof.
intros Hi Hmax Hfirst.
assert (Hin : In best keywords).
{ apply list_elem_of_In. by eapply list_elem_of_lookup_2. }
unfold _deduplicate_by_similarity.
destruct (length keywords <=? 1)%nat; [done|].
destruct sentence_transformer as [encode|]; [|done].
unfold dedup_body.
destruct (outer_loop _ _ _ _ _ _) as [rm|] eqn:Houter; simpl; [|done].
apply (keep_indices_lookup rm best keywords 0 i Hi). simpl.
intros Hrm.
pose proof (outer_loop_beaten keywords _ _ ∅ rm
(fun x Hx => False_ind _ (not_elem_of_empty x Hx)) Houter i Hrm)
as (y & kx & ky & Hx & Hy & Hcase).
rewrite Hi in Hx. injection Hx as <-.
destruct Hcase as [[Hlt Hle] | [Hlt Hle]].
- specialize (Hfirst y ky Hlt Hy). lra.
- specialize (Hmax y ky Hy). lra.
Qed.
End DedupKeeps.

Lemma deduplicate_keeps_first_best_witness :
  In NLP.best_laptop
    (NLP._deduplicate_by_similarity NLP.laptop_similarity 0.85
       (Some (fun t => t)) [NLP.top_laptop; NLP.red_shoes; NLP.best_laptop]).
Proof.
  apply (deduplicate_keeps_first_best NLP.laptop_similarity 0.85
           (Some (fun t => t)) [NLP.top_laptop; NLP.red_shoes; NLP.best_laptop]
           2 NLP.best_laptop).
  - reflexivity.
  - intros j kj Hj. destruct j as [|[|[|j]]]; simpl in Hj;
      [injection Hj as <-; vm_compute; discriminate ..| discriminate Hj].
  - intros j kj Hlt Hj. destruct j as [|[|j]]; simpl in Hj;
      [injection Hj as <-; vm_compute; reflexivity ..| lia].
Defined.

(** ** Sorting by a numeric key *)

Section SortByKey.
Context {A : Type} (key : A -> Q).

Local Abbreviation key_lt := (fun a b : A => Qltb (key a) (key b)).
Local Abbreviation descending := (fun a b : A => (key b <= key a)%Q).

Lemma insert_desc_sorted x l :
StronglySorted descending l ->
StronglySorted descending (insert_desc key_lt x l).
Proof.
induction 1 as [|y l Hl IH Hy]; simpl.
{ repeat constructor. }
destruct (Qltb (key x) (key y)) eqn:E.
- constructor; [exact IH|].
rewrite insert_desc_perm. constructor; [|exact Hy].
apply Qltb_true in E. lra.
- apply Qltb_false in E.
constructor; [by constructor|].
constructor; [exact E|].
eapply Forall_impl; [exact Hy|]. simpl. intros z Hz. lra.
Qed.

Lemma sort_desc_sorted l :
StronglySorted descending (sort_desc key_lt l).
Proof.
induction l as [|x l IH]; simpl; [constructor|].
by apply insert_desc_sorted.
Qed.

Lemma take_sorted (R : A -> A -> Prop) n l :
StronglySorted R l -> StronglySorted R (take n l).
Proof.
intros Hl. revert n. induction Hl as [|x l Hl IH Hx]; intros [|n]; simpl;
try constructor; [apply IH|].
apply List.Forall_forall. intros y Hy.
rewrite List.Forall_forall in Hx. apply Hx.
rewrite <- (take_drop n l). apply in_or_app. by left.
Qed.
End SortByKey.

(** ** Scorer: order inside a bucket, precedence of the brand *)

Section BucketOrder.
Import Scorer.
Context `{Runtime}.

(** Every bucket comes out sorted by score, highest first. *)
Theorem bucketize_sorted (keywords : list KeywordScore) (page_type : pystr)
(brand_info : BrandInfo) (domain_keywords : option (gmap pystr Q))
(b : bucket) :
StronglySorted (fun x y => (score y <= score x)%Q)
(get_bucket
(bucketize_keywords keywords page_type brand_info domain_keywords) b).
Proof.
rewrite bucketize_bucket. unfold sort_and_cap.
apply take_sorted. apply (sort_desc_sorted score).
Qed.

(** A brand entry that is [None] makes [.lower()] raise, and the handler
files every keyword under [generales_seo], whatever the page type. *)
Theorem classify_without_brand (keyword : pystr) (score : Q)
(page_type : pystr) (brand_info : BrandInfo)
(domain_keywords : option (gmap pystr Q)) :
name brand_info = None \/ domain brand_info = None ->
_classify_keyword_bucket keyword score page_type brand_info domain_keywords
= generales_seo.
Proof.
unfold _classify_keyword_bucket, classify_body.
intros [-> | ->]; [done|]. by destruct (name brand_info).
Qed.


(** Without domain keywords, which is how a page is analysed, and with
both brand entries present, nothing is filed under [generales_seo]. *)
Theorem bucketize_page_no_general (keywords : list KeywordScore)
(page_type : pystr) (brand_info : BrandInfo) (brand_name brand_domain : pystr) :
name brand_info = Some brand_name ->
domain brand_info = Some brand_domain ->
b_generales_seo (bucketize_keywords keywords page_type brand_info None) = [].
Proof.
intros Hn Hd.
change (b_generales_seo ?x) with (get_bucket x generales_seo).
rewrite bucketize_bucket.
rewrite filter_none; [reflexivity|].
intros kw _. apply bool_decide_eq_false.
unfold _classify_keyword_bucket, classify_body. rewrite Hn, Hd. simpl.
repeat match goal with
| |- context [if ?c then _ else _] => destruct c; simpl
end; done.
Qed.
End BucketOrder.

Lemma classify_without_brand_witness :
  Scorer._classify_keyword_bucket (H := ascii_runtime) (py "laptop gaming") 0.5
    (py "ecommerce") Scorer.sample_brand None = Scorer.generales_seo.
Proof.
  apply (classify_without_brand (H := ascii_runtime)). left. reflexivity.
Defined.


Lemma bucketize_page_no_general_witness :
  Scorer.b_generales_seo
    (Scorer.bucketize_keywords (H := ascii_runtime) (Scorer.numbered_keywords 5)
       (py "mixto") Scorer.no_brand None) = [].
Proof.
  apply (bucketize_page_no_general (H := ascii_runtime) _ _ _ [] []);
    reflexivity.
Defined.

(** ** Scorer: the range of the factors *)

Section FactorFacts.
Import Config Scorer.
Context `{Runtime}.

Lemma pymin_le_r a b : (pymin a b <= b)%Q.
Proof.
unfold pymin. destruct (Qltb b a) eqn:E; [lra|].
apply Qltb_false in E. exact E.
Qed.

Lemma pymin_ge a b c : (c <= a)%Q -> (c <= b)%Q -> (c <= pymin a b)%Q.
Proof. intros. unfold pymin. by destruct (Qltb b a). Qed.

Lemma pymax_le a b c : (a <= c)%Q -> (b <= c)%Q -> (pymax a b <= c)%Q.
Proof. intros. unfold pymax. by destruct (Qltb a b). Qed.

Lemma py_div_nat_value (a n : nat) q :
py_div (inject_Z (Z.of_nat a)) (inject_Z (Z.of_nat n)) = Some q ->
(0 <= q)%Q /\ (a <= n -> (q <= 1)%Q).
Proof.
unfold py_div. destruct (Qeq_bool _ _) eqn:E; [done|].
intros [= <-].
assert (Hn : (0 < inject_Z (Z.of_nat n))%Q).
{ apply Qeq_bool_neq in E.
assert (0 <= inject_Z (Z.of_nat n))%Q.
{ rewrite <- (Zle_Qle 0). lia. }
lra. }
assert (Ha : (0 <= inject_Z (Z.of_nat a))%Q).
{ rewrite <- (Zle_Qle 0). lia. }
split.
- apply Qle_shift_div_l; [done | lra].
- intros Hle. apply Qle_shift_div_r; [done|].
rewrite Qmult_1_l. rewrite <- Zle_Qle. lia.
Qed.

Lemma find_bound (s sub : pystr) pos : find s sub = Some pos -> pos <= length s.
Proof.
revert pos. induction s as [|c s IH]; intros pos; cbn [find].
- destruct (startswith [] sub); [intros [= <-]; simpl; lia | intros [=]].
- destruct (startswith (c :: s) sub); [intros [= <-]; simpl; lia|].
destruct (find s sub) as [p|]; [|intros [=]]. cbn. intros [= <-].
specialize (IH p eq_refl). lia.
Qed.

Lemma or_zero_bounds (body : option Q) :
(forall q, body = Some q -> (0 <= q <= 1)%Q) -> (0 <= or_zero body <= 1)%Q.
Proof.
intros Hq. destruct body as [q|]; simpl; [by apply Hq | lra].
Qed.

Ltac constant_branches :=
repeat match goal with
| |- context [if ?c then _ else _] => destruct c
end; lra.

(** The position, co-occurrence and brand-similarity factors are in
[0, 1] for every keyword, page and brand. *)
Theorem factors_in_unit_interval (keyword : pystr) (text_data : TextData)
(brand_info : BrandInfo) :
(0 <= _calculate_position_score keyword text_data <= 1)%Q
/\ (0 <= _calculate_cooccurrence_score keyword text_data <= 1)%Q
/\ (0 <= _calculate_similarity_score keyword brand_info <= 1)%Q.
Proof.
split; [|split]; apply or_zero_bounds; intros q Hq.
- unfold position_body in Hq.
destruct (title _) as [t|]; [|injection Hq as <-; lra].
destruct (negb _); [injection Hq as <-; lra|].
destruct (find _ _) as [pos|] eqn:Hfind; [|injection Hq as <-; lra].
destruct (_ =? 0)%nat; [injection Hq as <-; lra|].
destruct (py_div _ _) as [r|] eqn:Hr; [|done].
cbn in Hq. injection Hq as <-.
apply py_div_nat_value in Hr as [Hr0 Hr1].
apply find_bound in Hfind. specialize (Hr1 Hfind).
split; [apply pymax_ge_l | apply pymax_le; lra].
- unfold cooccurrence_body in Hq.
destruct (fold_left _ _ _) as [c t].
destruct (t =? 0)%nat; [injection Hq as <-; lra|].
destruct (_ ++ _) as [|x l].
+ cbn in Hq. injection Hq as <-.
split; [apply pymin_ge; lra | apply pymin_le_l].
+ destruct (py_div _ _) as [r|] eqn:Hr; [|done].
cbn in Hq. injection Hq as <-.
apply py_div_nat_value in Hr as [Hr0 _].
split; [apply pymin_ge; lra | apply pymin_le_l].
- unfold similarity_body in Hq.
destruct (_ && _); [injection Hq as <-; lra|].
injection Hq as <-. split.
+ eapply Qle_trans; [|apply pymax_ge_l].
destruct (name brand_info) as [bn|]; [|lra].
destruct (truthy bn); [|lra]. constant_branches.
+ apply pymax_le.
* destruct (name brand_info) as [bn|]; [|lra].
destruct (truthy bn); [|lra]. constant_branches.
* destruct (domain brand_info) as [bd|]; [|lra].
destruct (truthy bd); [|lra]. constant_branches.
Qed.

(** A keyword equal to the brand name, letter case aside, has brand
similarity 1.0, whatever the domain. *)
Theorem similarity_exact_brand (keyword brand_name : pystr)
(brand_info : BrandInfo) :
name brand_info = Some brand_name -> brand_name <> [] ->
str_lower keyword = str_lower brand_name ->
_calculate_similarity_score keyword brand_info = 1%Q.
Proof.
intros Hn Hne Heq.
unfold _calculate_similarity_score, or_zero, similarity_body.
rewrite Hn. destruct brand_name as [|c s]; [done|]. simpl.
unfold str_eqb. rewrite bool_decide_eq_true_2 by done.
unfold pymax.
destruct (domain brand_info) as [bd|]; [|reflexivity].
destruct (truthy bd); [|reflexivity].
repeat match goal with
| |- context [if bool_decide ?c then _ else _] => destruct (bool_decide c)
| |- context [if (?a || ?b) then _ else _] => destruct (a || b)
end; reflexivity.
Qed.

(** A title that begins with the keyword gives the position factor 1.0. *)
Theorem position_at_title_start (keyword title_ : pystr) (text_data : TextData) :
title (meta text_data) = Some title_ -> title_ <> [] ->
str_lower title_ <> [] ->
startswith (str_lower title_) (str_lower keyword) = true ->
(_calculate_position_score keyword text_data == 1)%Q.
Proof.
intros Ht Hne Hlow Hstart.
unfold _calculate_position_score, or_zero, position_body. rewrite Ht.
destruct title_ as [|c s]; [done|]. simpl negb. cbv iota.
assert (Hfind : find (str_lower (c :: s)) (str_lower keyword) = Some 0).
{ destruct (str_lower (c :: s)); cbn [find]; by rewrite Hstart. }
rewrite Hfind.
destruct (_ =? 0)%nat eqn:E.
{ apply Nat.eqb_eq in E. by destruct (str_lower (c :: s)). }
apply Nat.eqb_neq in E.
destruct (py_div_nat (inject_Z (Z.of_nat 0)) _ E) as [q Hq].
rewrite Hq. simpl.
unfold py_div in Hq. destruct (Qeq_bool _ _); [done|]. injection Hq as <-.
set (d := inject_Z (Z.of_nat (length (str_lower (c :: s))))).
assert (Hz : (inject_Z (Z.of_nat 0) / d == 0)%Q).
{ unfold Qdiv. apply Qmult_0_l. }
revert Hz. generalize (inject_Z (Z.of_nat 0) / d)%Q. intros q Hz.
unfold pymax. destruct (Qltb 0 (1 - q)) eqn:Hlt.
- lra.
- apply Qltb_false in Hlt. lra.
Qed.
End FactorFacts.

Lemma similarity_exact_brand_witness :
  Scorer._calculate_similarity_score (H := ascii_runtime) (py "ACME")
    {| Scorer.name := Some (py "Acme"); Scorer.domain := Some (py "shop.example") |}
  = 1%Q.
Proof.
  apply (similarity_exact_brand (H := ascii_runtime) _ (py "Acme")).
  - reflexivity.
  - vm_compute. discriminate.
  - vm_compute. reflexivity.
Defined.

Lemma position_at_title_start_witness :
  (Scorer._calculate_position_score (H := ascii_runtime) (py "best laptop")
     Scorer.sample_text_data == 1)%Q.
Proof.
  apply (position_at_title_start (H := ascii_runtime) _ (py "Best laptop deals")).
  - reflexivity.
  - vm_compute. discriminate.
  - vm_compute. discriminate.
  - vm_compute. reflexivity.
Defined.

(** ** Configuration: normalizing twice, updating *)

Section SettingsFacts.
Import Config Settings.

Lemma scaled_by_one (w : ScoringWeights) (total : Q) :
(total == 1)%Q -> same_weights (scaled w total) w.
Proof.
intros Ht. unfold same_weights, scaled. simpl.
repeat split; rewrite Ht; field.
Qed.


Lemma assign_valid (current : ScoringWeights) (weights : WeightsUpdate) :
valid_weights current -> valid_update weights ->
valid_weights (assign current weights).
Proof.
intros (C1 & C2 & C3 & C4 & C5) (U1 & U2 & U3 & U4 & U5).
unfold valid_weights, assign. simpl.
split; [|split; [|split; [|split]]].
- destruct (w1_frequency weights) as [x|]; simpl; [by apply U1 | done].
- destruct (w2_tfidf weights) as [x|]; simpl; [by apply U2 | done].
- destruct (w3_cooccurrence weights) as [x|]; simpl; [by apply U3 | done].
- destruct (w4_position_title weights) as [x|]; simpl; [by apply U4 | done].
- destruct (w5_similarity_brand weights) as [x|]; simpl; [by apply U5 | done].
Qed.


(** Setting all five weights to zero is accepted and leaves them all at
zero: the configuration is then not normalized. *)
Theorem update_all_to_zero (current : ScoringWeights) :
update_scoring_weights current all_to_zero = Some zero_weights.
Proof. reflexivity. Qed.
End SettingsFacts.


(** ** Scorer: degenerate weights, and the keywords of a page *)

Section PageFacts.
Import Config Scorer.
Context `{Runtime}.
Variable normalize_text : pystr -> option pystr.
Variable tokenize_text : pystr -> option (list pystr).
Variable calculate_tfidf_scores :
list pystr -> list pystr -> option (gmap pystr Q).
Variable np_log : Q -> Q.
Variable settings_scoring_weights : ScoringWeights.

(** With all five weights at zero every keyword scores 0. *)
Theorem zero_weights_zero_score (weights : ScoringWeights)
(keyword : pystr) (text_data : TextData) (brand_info : BrandInfo) :
all_zero weights ->
calculate_keyword_score normalize_text tokenize_text calculate_tfidf_scores
np_log settings_scoring_weights keyword text_data brand_info (Some weights)
= 0%Q.
Proof.
intros (H1 & H2 & H3 & H4 & H5).
unfold calculate_keyword_score. simpl default.
set (s := weighted_sum _ _ _ _ _ _).
assert (Hs : (s == 0)%Q).
{ unfold s, weighted_sum. rewrite H1, H2, H3, H4, H5. ring. }
clearbody s. unfold clamp01, pymax, pymin.
assert (Qltb s 1 = true) as -> by (apply Qltb_true; lra).
assert (Qltb 0 s = false) as -> by (apply Qltb_false; lra).
reflexivity.
Qed.

(** The frequency factor is at most 1, and at least 0 when the logarithm
in use is not negative from 1 on. *)
Theorem frequency_in_unit_interval (keyword : pystr) (text_data : TextData) :
(forall x, (1 <= x)%Q -> (0 <= np_log x)%Q) ->
(0 <= _calculate_frequency_score normalize_text tokenize_text np_log
keyword text_data <= 1)%Q.
Proof.
intros Hlog. apply or_zero_bounds. intros q Hq.
unfold frequency_body in Hq.
destruct (normalize_text _) as [normalized|]; [|done]. cbn in Hq.
destruct (tokenize_text _) as [tokens|]; [|done]. cbn in Hq.
destruct tokens as [|tok tokens]; [injection Hq as <-; lra|].
change (0 <? length (tok :: tokens))%nat with true in Hq. cbv iota in Hq.
destruct (py_div _ _) as [f|] eqn:Hf; [|done]. cbn in Hq.
apply py_div_nat_value in Hf as [Hf0 _].
destruct (Qltb 0 f); injection Hq as <-; [|lra].
split; [|apply pymin_le_l].
apply pymin_ge; [lra|]. apply Hlog. nra.
Qed.

(** Every keyword in the buckets of a page has a score in [0, 1] and is
one of the extracted keywords, so the response model accepts it. *)
Theorem page_keywords_valid (keywords_raw : list NLP.Keyword)
(text_data : TextData) (page_type : pystr) (brand_info : BrandInfo)
(b : bucket) (kw : KeywordScore) :
In kw
(get_bucket
(Page.keywords_buckets normalize_text tokenize_text
calculate_tfidf_scores np_log settings_scoring_weights
keywords_raw text_data page_type brand_info) b) ->
(0 <= score kw <= 1)%Q /\ In (term kw) (NLP.term <$> keywords_raw).
Proof.
unfold Page.keywords_buckets. rewrite bucketize_bucket. intros Hin.
apply sort_and_cap_In, filter_In in Hin as [Hin _].
unfold Page.keywords_with_scores in Hin.
apply in_map_iff in Hin as (raw & <- & Hraw). simpl. split.
- apply clamp01_bounds.
- by apply in_map.
Qed.
End PageFacts.

Lemma zero_weights_zero_score_witness :
  Scorer.calculate_keyword_score (H := ascii_runtime) (fun t => Some t)
    (fun t => Some (split t)) (fun _ _ => Some ∅) (fun x => x)
    Config.default_weights (py "laptop") Scorer.sample_text_data
    Scorer.sample_brand (Some Config.zero_weights) = 0%Q.
Proof.
  apply (zero_weights_zero_score (H := ascii_runtime)).
  vm_compute. tauto.
Defined.

Lemma frequency_in_unit_interval_witness :
  (0 <= Scorer._calculate_frequency_score (H := ascii_runtime)
          (fun t => Some t) (fun t => Some (split t))
          (fun x => x - 1) (py "laptop") Scorer.sample_text_data <= 1)%Q.
Proof.
  apply (frequency_in_unit_interval (H := ascii_runtime)).
  intros x Hx. lra.
Defined.

Lemma page_keywords_valid_witness :
  let kw := {| Scorer.term := py "best laptop"; Scorer.score := 0 |} in
  (0 <= Scorer.score kw <= 1)%Q
  /\ In (Scorer.term kw) (NLP.term <$> [NLP.best_laptop; NLP.red_shoes]).
Proof.
  apply (page_keywords_valid (H := ascii_runtime) (fun t => Some t)
           (fun t => Some (split t)) (fun _ _ => Some ∅) (fun x => x)
           Config.zero_weights [NLP.best_laptop; NLP.red_shoes]
           Scorer.sample_text_data (py "mixto") Scorer.no_brand
           Scorer.producto_o_post).
  vm_compute. left. reflexivity.
Defined.

(** ** Sitemap: the budget is filled *)

Section FillFacts.
Import Sitemap.
Context `{Runtime}.

Lemma relevance_in_unit_interval (url_ : pystr) (priority_ : Q) :
(0 <= _calculate_relevance_score url_ priority_ <= 1)%Q.
Proof.
unfold _calculate_relevance_score. split; [apply pymax_ge_l|].
apply pymax_le; [lra | apply pymin_le_l].
Qed.

Lemma append_while_room_spec max_urls l : forall sel,
append_while_room max_urls l sel =
sel ++ take (max_urls - length sel) (url <$> l).
Proof.
unfold append_while_room.
induction l as [|u l IH]; intros sel; cbn [fold_left fmap list_fmap].
{ by rewrite take_nil, app_nil_r. }
destruct (length sel <? max_urls)%nat eqn:Hroom.
- apply Nat.ltb_lt in Hroom. rewrite IH.
rewrite length_app. simpl.
replace (max_urls - length sel) with (S (max_urls - (length sel + 1))) by lia.
simpl. by rewrite <- app_assoc.
- apply Nat.ltb_ge in Hroom. rewrite IH.
replace (max_urls - length sel) with 0 by lia. done.
Qed.

Lemma filter_sublist {A} (f : A -> bool) (l : list A) :
sublist (List.filter f l) l.
Proof.
induction l as [|x l IH]; simpl; [constructor|].
destruct (f x); by constructor.
Qed.

Lemma category_lists_cover (urls : list UrlData) :
Permutation urls
(concat ((fun c => List.filter (is_in c) urls) <$> priority_categories)).
Proof.
unfold priority_categories. cbn [fmap list_fmap concat]. rewrite app_nil_r.
induction urls as [|u urls IH]; cbn [List.filter]; [done|].
assert (Hu : forall c, is_in c u = bool_decide (category_of_record u = c))
by done.
rewrite !Hu.
destruct (category_of_record u);
repeat first [ rewrite bool_decide_eq_true_2 by done
 | rewrite bool_decide_eq_false_2 by done ].
all: rewrite <- ?app_comm_cons, <- ?Permutation_middle; by apply perm_skip.
Qed.

Section Candidates.
Variables (urls : list UrlData) (domain : pystr) (max_urls : nat).

Local Abbreviation cats := (_categorize_urls urls domain).
Local Abbreviation step :=
(fun sel c =>
match dict_get cats c with
| Some l =>
if (length sel <? max_urls)%nat
then append_while_room max_urls (take (category_limit max_urls c) l) sel
else sel
| None => sel
end).

Lemma quota_step (sel : list pystr) (c : category) :
exists extra,
step sel c = sel ++ extra
/\ extra ⊆+ url <$> List.filter (is_in c) urls
/\ (length sel <= max_urls -> length (sel ++ extra) <= max_urls).
Proof.
cbv beta. rewrite dict_get_categorize.
destruct (List.filter (is_in c) urls) as [|u l] eqn:E.
{ exists []. rewrite app_nil_r. repeat split; [done | lia]. }
rewrite <- E.
destruct (length sel <? max_urls)%nat eqn:Hroom.
2: { exists []. rewrite app_nil_r. repeat split; [|lia].
apply submseteq_nil_l. }
rewrite append_while_room_spec. eexists. split; [reflexivity|]. split.
- rewrite <- fmap_take. apply fmap_submseteq.
etransitivity; [apply sublist_submseteq, sublist_take|].
etransitivity; [apply sublist_submseteq, sublist_take|].
apply Permutation_submseteq, sort_desc_perm.
- intros _. apply Nat.ltb_lt in Hroom.
rewrite length_app, length_take. lia.
Qed.

Lemma quota_loop (cs : list category) : forall sel,
exists extra,
fold_left step cs sel = sel ++ extra
/\ extra ⊆+ url <$> concat ((fun c => List.filter (is_in c) urls) <$> cs)
/\ (length sel <= max_urls -> length (sel ++ extra) <= max_urls).
Proof.
induction cs as [|c cs IH]; intros sel.
{ exists []. rewrite app_nil_r. repeat split; [done | lia]. }
cbn [fold_left].
destruct (quota_step sel c) as (e1 & -> & Hsub1 & Hlen1).
destruct (IH (sel ++ e1)) as (e2 & -> & Hsub2 & Hlen2).
exists (e1 ++ e2). rewrite app_assoc. split; [done|]. split.
- cbn [fmap list_fmap concat]. rewrite fmap_app. by apply submseteq_app.
- intros Hsel. auto.
Qed.

Lemma select_quotas_submseteq :
select_quotas cats max_urls ⊆+ url <$> urls
/\ length (select_quotas cats max_urls) <= max_urls.
Proof.
unfold select_quotas.
destruct (quota_loop priority_categories []) as (e & -> & Hsub & Hlen).
simpl. split; [|apply Hlen; simpl; lia].
etransitivity; [exact Hsub|].
apply Permutation_submseteq, fmap_Permutation.
symmetry. apply category_lists_cover.
Qed.

(** What the top-off finds: the URLs outside a duplicate-free selection
drawn from a duplicate-free list. *)
Lemma unselected_perm (sel A : list pystr) :
NoDup A -> sel ⊆+ A ->
sel ++ List.filter (fun x => negb (mem x sel)) A ≡ₚ A.
Proof.
intros Hnd Hsub.
destruct (submseteq_Permutation _ _ Hsub) as [rest Hperm].
rewrite Hperm in Hnd. apply NoDup_app in Hnd as (Hsel & Hdisj & Hrest).
rewrite (filter_perm _ _ _ Hperm), List.filter_app.
rewrite filter_none, filter_all; [by rewrite Hperm | |].
- intros x Hx. apply negb_true_iff, bool_decide_eq_false.
intros Hin. apply (Hdisj x Hin). by apply list_elem_of_In.
- intros x Hx. apply negb_false_iff, bool_decide_eq_true.
by apply list_elem_of_In.
Qed.

(** With distinct URLs, the selection by categories returns exactly
[max_urls] URLs, or all of them when there are fewer; it returns no
URL twice and none that is not a candidate. *)
Lemma select_by_categories_budget :
List.NoDup (url <$> urls) ->
let selected := _select_by_categories cats max_urls in
length selected = Nat.min max_urls (length urls)
/\ List.NoDup selected
/\ (forall x, In x selected -> In x (url <$> urls)).
Proof.
intros Hnd selected.
destruct select_quotas_submseteq as [Hsub Hlen].
pose proof Hnd as Hnd'. apply NoDup_ListNoDup in Hnd'.
set (all := sort_desc relevance_lt (concat (snd <$> cats))).
assert (Hall : url <$> all ≡ₚ url <$> urls).
{ apply Permutation_map. unfold all.
by rewrite sort_desc_perm, concat_categorize. }
assert (Hfull : selected ⊆+ url <$> urls
/\ length selected = Nat.min max_urls (length urls)).
{ unfold selected, _select_by_categories. fold all.
set (sel := select_quotas cats max_urls) in *.
pose proof (submseteq_length _ _ Hsub) as Hle. rewrite length_fmap in Hle.
destruct (length sel <? max_urls)%nat eqn:Hroom.
- apply Nat.ltb_lt in Hroom.
rewrite fill_remaining_spec
by (eapply Permutation_NoDup; [symmetry; exact Hall | exact Hnd]).
set (F := List.filter (fun x => negb (mem x sel)) (url <$> all)).
assert (HF : sel ++ F ≡ₚ url <$> urls).
{ unfold F. etransitivity; [|exact Hall]. apply unselected_perm.
- by rewrite Hall.
- by rewrite Hall. }
assert (HlenF : length sel + length F = length urls).
{ apply Permutation_length in HF.
by rewrite length_app, length_fmap in HF. }
rewrite take_ge by (rewrite length_app, length_take; lia).
split.
+ rewrite <- HF. apply submseteq_skips_l.
apply sublist_submseteq, sublist_take.
+ rewrite length_app, length_take. lia.
- apply Nat.ltb_ge in Hroom.
rewrite take_ge by lia. split; [done | lia]. }
destruct Hfull as [Hsel Hlensel]. split; [done|]. split.
- apply NoDup_ListNoDup.
apply submseteq_sublist_r in Hsel as (l2 & Hperm & Hsl).
rewrite Hperm. by eapply sublist_NoDup.
- intros x Hx. apply list_elem_of_In.
eapply elem_of_submseteq; [|exact Hsel]. by apply list_elem_of_In.
Qed.
End Candidates.

Lemma select_by_relevance_budget (urls : list UrlData) (max_urls : nat) :
List.NoDup (url <$> urls) ->
let selected := _select_by_relevance urls max_urls in
length selected = Nat.min max_urls (length urls)
/\ List.NoDup selected
/\ (forall x, In x selected -> In x (url <$> urls)).
Proof.
intros Hnd selected. unfold selected, _select_by_relevance.
assert (Hsub : url <$> take max_urls (sort_desc relevance_lt urls)
 ⊆+ url <$> urls).
{ apply fmap_submseteq.
etransitivity; [apply sublist_submseteq, sublist_take|].
apply Permutation_submseteq, sort_desc_perm. }
split; [|split].
- rewrite length_fmap, length_take, sort_desc_length. lia.
- apply NoDup_ListNoDup.
apply submseteq_sublist_r in Hsub as (l2 & Hperm & Hsl).
apply NoDup_ListNoDup in Hnd.
rewrite Hperm. by eapply sublist_NoDup.
- intros x Hx. apply list_elem_of_In.
eapply elem_of_submseteq; [|exact Hsub]. by apply list_elem_of_In.
Qed.

(** The selection fills its budget. When the URLs of the sitemap are
distinct, [_select_intelligent_urls] returns exactly [max_urls] URLs, or
all of them when the sitemap has fewer, whichever branch runs (all
records, the recent ones, or the fallback by relevance); no URL is
returned twice and every one is a URL of the sitemap. *)
Theorem select_intelligent_urls_fills_budget (now : Z) (urls : list UrlData)
(domain : pystr) (max_urls : nat) :
List.NoDup (url <$> urls) ->
let selected := _select_intelligent_urls now urls domain max_urls in
length selected = Nat.min max_urls (length urls)
/\ List.NoDup selected
/\ (forall x, In x selected -> In x (url <$> urls)).
Proof.
intros Hnd. unfold _select_intelligent_urls, urls_to_categorize.
destruct (recent_filter _ urls) as [recent|] eqn:Hrecent; simpl.
2: by apply select_by_relevance_budget.
apply recent_filter_Some in Hrecent as ->.
destruct (length (List.filter (recentb now) urls) <? max_urls)%nat eqn:Hfew.
{ by apply select_by_categories_budget. }
apply Nat.ltb_ge in Hfew.
pose proof (filter_sublist (recentb now) urls) as Hsl.
pose proof (sublist_length _ _ Hsl) as Hlen.
destruct (select_by_categories_budget
(List.filter (recentb now) urls) domain max_urls)
as (Hl & Hn & Hi).
{ pose proof (fmap_sublist url _ _ Hsl) as Hsl'.
pose proof Hnd as Hnd'. apply NoDup_ListNoDup in Hnd'.
apply NoDup_ListNoDup. by eapply sublist_NoDup. }
split; [|split].
- rewrite Hl. lia.
- exact Hn.
- intros x Hx. apply Hi in Hx. apply list_elem_of_In.
eapply elem_of_sublist; [|exact (fmap_sublist url _ _ Hsl)].
by apply list_elem_of_In.
Qed.
End FillFacts.

Lemma select_intelligent_urls_fills_budget_witness :
  let urls := Sitemap.products_and_posts in
  let selected :=
    Sitemap._select_intelligent_urls (H := ascii_runtime) Sitemap.noon urls
      (py "https://example.com") 4 in
  List.NoDup (Sitemap.url <$> urls)
  /\ length selected = Nat.min 4 (length urls)
  /\ List.NoDup selected
  /\ (forall x, In x selected -> In x (Sitemap.url <$> urls)).
Proof.
  split; [vm_compute; distinct_strings|].
  apply (select_intelligent_urls_fills_budget (H := ascii_runtime)).
  vm_compute; distinct_strings.
Defined.

(** ** Main and Scorer: the domain summary *)

Section AggregateFacts.
Import Config Scorer Main.

Lemma pysum_from_bounds (l : list Q) : forall acc,
Forall field_ok l ->
(acc <= fold_left Qplus l acc
/\ fold_left Qplus l acc <= acc + inject_Z (Z.of_nat (length l)))%Q.
Proof.
induction l as [|x l IH]; intros acc Hl.
{ cbn [fold_left length]. change (inject_Z (Z.of_nat 0)) with 0%Q.
split; lra. }
apply Forall_cons in Hl as [[Hx0 Hx1] Hl].
destruct (IH (acc + x)%Q Hl) as [Hlo Hhi].
cbn [fold_left]. split; [lra|].
eapply Qle_trans; [exact Hhi|].
change (length (x :: l)) with (S (length l)).
rewrite Nat2Z.inj_succ. unfold Z.succ. rewrite inject_Z_plus.
change (inject_Z 1) with 1%Q. lra.
Qed.

(** The average of a non-empty list of scores of [[0, 1]] is a score of
[[0, 1]]. *)
Lemma average_field_ok (l : list Q) :
l <> [] -> Forall field_ok l ->
field_ok (pysum l / inject_Z (Z.of_nat (length l))).
Proof.
intros Hne Hl. destruct (pysum_from_bounds l 0 Hl) as [Hlo Hhi].
fold (pysum l) in Hlo, Hhi.
assert (Hn : (0 < inject_Z (Z.of_nat (length l)))%Q).
{ rewrite <- (Zlt_Qlt 0). destruct l; [done | simpl; lia]. }
split.
- apply Qle_shift_div_l; [done | lra].
- apply Qle_shift_div_r; [done | lra].
Qed.

Section Groups.
(** What holds of every entry [(keyword, scores)] of [keyword_scores]. *)
Variable entry_ok : pystr -> list Q -> Prop.
Variable added_ok : pystr -> Q -> Prop.
Hypothesis entry_new : forall t s, added_ok t s -> entry_ok t [s].
Hypothesis entry_more :
forall t l s, entry_ok t l -> added_ok t s -> entry_ok t (l ++ [s]).

Local Abbreviation grouped :=
(fun d : list (pystr * list Q) =>
NoDup (fst <$> d) /\ forall k l, In (k, l) d -> entry_ok k l).

Lemma scores_append_keys d t s k :
k ∈ fst <$> scores_append d t s <-> k ∈ fst <$> d \/ k = t.
Proof.
induction d as [|[k' l] d IH]; simpl.
{ rewrite list_elem_of_singleton, elem_of_nil. tauto. }
unfold str_eqb. case_bool_decide as E; simpl.
- subst k'. rewrite !elem_of_cons. tauto.
- rewrite !elem_of_cons, IH. tauto.
Qed.

Lemma scores_append_grouped d t s :
grouped d -> added_ok t s -> grouped (scores_append d t s).
Proof using All.
intros [Hnd Hd] Hs. induction d as [|[k' l] d IH]; simpl.
{ split; [apply NoDup_singleton|].
intros k l [[= <- <-] | []]. by apply entry_new. }
simpl in Hnd. apply NoDup_cons in Hnd as [Hk' Hnd].
unfold str_eqb. case_bool_decide as E; simpl.
- subst k'. split; [by apply NoDup_cons|].
intros k l0 [[= <- <-] | Hin].
+ apply entry_more; [|done]. apply Hd. by left.
+ apply Hd. by right.
- destruct IH as [IHnd IHd]; [done | |].
{ intros k l0 Hin. apply Hd. by right. }
split.
+ apply NoDup_cons. split; [|done].
rewrite scores_append_keys. intros [Hin | ->]; [done | done].
+ intros k l0 [[= <- <-] | Hin]; [apply Hd; by left | by apply IHd].
Qed.

Lemma collect_bucket_grouped (kws : list KeywordScore) : forall d,
grouped d ->
(forall kw, In kw kws -> added_ok (term kw) (score kw)) ->
grouped (fold_left (fun d kw => scores_append d (term kw) (score kw)) kws d).
Proof using All.
induction kws as [|kw kws IH]; intros d Hd Hk; [done|].
cbn [fold_left]. apply IH.
- apply scores_append_grouped; [done|]. apply Hk. by left.
- intros kw' Hin. apply Hk. by right.
Qed.

Lemma collect_pages_grouped (b : bucket) (pages : list Buckets) : forall d,
grouped d ->
(forall bs kw, In bs pages -> In kw (get_bucket bs b) ->
added_ok (term kw) (score kw)) ->
grouped (fold_left
(fun d bs =>
fold_left (fun d kw => scores_append d (term kw) (score kw))
(get_bucket bs b) d)
pages d).
Proof using All.
induction pages as [|bs pages IH]; intros d Hd Hk; [done|].
cbn [fold_left]. apply IH.
- apply collect_bucket_grouped; [done|]. intros kw Hin.
apply (Hk bs); [by left | done].
- intros bs' kw Hbs Hin. apply (Hk bs'); [by right | done].
Qed.
End Groups.

Lemma averaged_terms (d : list (pystr * list Q)) :
term <$>
((fun '(keyword, scores) =>
{| term := keyword;
score := (pysum scores / inject_Z (Z.of_nat (length scores)))%Q |})
<$> d) = fst <$> d.
Proof.
induction d as [|[k l] d IH]; [done|].
rewrite !fmap_cons, IH. reflexivity.
Qed.

(** The shape of an aggregated list: at most [top_n] keywords, no term
twice, the best average first, and every term taken from the bucket of
that name of some page. *)
Theorem top_keywords_by_bucket_shape (all_url_results : list Buckets)
(bucket_name : bucket) (top_n : nat) :
let top := get_top_keywords_by_bucket all_url_results bucket_name top_n in
length top <= top_n
/\ List.NoDup (term <$> top)
/\ StronglySorted (fun x y => (score y <= score x)%Q) top
/\ (forall kw, In kw top ->
exists bs kw', In bs all_url_results
/\ In kw' (get_bucket bs bucket_name) /\ term kw' = term kw).
Proof.
intros top. unfold top, get_top_keywords_by_bucket.
set (all := all_url_results).
set (d := fold_left _ all []).
assert (Hd : NoDup (fst <$> d) /\
 forall k l, In (k, l) d ->
   exists bs kw', In bs all /\ In kw' (get_bucket bs bucket_name)
                  /\ term kw' = k).
{ unfold d.
apply (collect_pages_grouped
(fun k _ => exists bs kw', In bs all
             /\ In kw' (get_bucket bs bucket_name)
             /\ term kw' = k)
(fun k _ => exists bs kw', In bs all
             /\ In kw' (get_bucket bs bucket_name)
             /\ term kw' = k)); try done.
- split; [constructor | intros k l []].
- intros bs kw Hbs Hkw. by exists bs, kw. }
destruct Hd as [Hnd Hd].
set (avg := fun '(keyword, scores) => _).
set (lt := fun a b : KeywordScore => _).
assert (Hsub : take top_n (sort_desc lt (avg <$> d)) ⊆+ avg <$> d).
{ etransitivity; [apply sublist_submseteq, sublist_take|].
apply Permutation_submseteq, sort_desc_perm. }
split; [rewrite length_take; lia|]. split; [|split].
- apply NoDup_ListNoDup.
apply (fmap_submseteq term) in Hsub.
apply submseteq_sublist_r in Hsub as (l2 & Hperm & Hsl).
unfold avg in Hsl. rewrite averaged_terms in Hsl.
rewrite Hperm. by eapply sublist_NoDup.
- apply take_sorted. apply (sort_desc_sorted score).
- intros kw Hkw. apply list_elem_of_In in Hkw.
eapply elem_of_submseteq in Hkw; [|exact Hsub].
apply list_elem_of_fmap in Hkw as ([k l] & -> & Hin).
apply list_elem_of_In in Hin. exact (Hd k l Hin).
Qed.

(** Averaging keeps scores valid: when every score that the pages carry in
the bucket lies in [[0, 1]], as [KeywordScore] requires, so does every
aggregated score, and building the summary's [KeywordScore] objects
cannot fail. *)
Theorem top_keywords_by_bucket_scores (all_url_results : list Buckets)
(bucket_name : bucket) (top_n : nat) :
(forall bs kw, In bs all_url_results ->
In kw (get_bucket bs bucket_name) -> field_ok (score kw)) ->
forall kw,
In kw (get_top_keywords_by_bucket all_url_results bucket_name top_n) ->
field_ok (score kw).
Proof.
intros Hvalid kw. unfold get_top_keywords_by_bucket.
set (d := fold_left _ all_url_results []).
assert (Hd : NoDup (fst <$> d) /\
 forall k l, In (k, l) d -> l <> [] /\ Forall field_ok l).
{ unfold d.
apply (collect_pages_grouped
(fun _ l => l <> [] /\ Forall field_ok l)
(fun _ s => field_ok s)).
- intros t s Hs. split; [done | by constructor].
- intros t l s [Hne Hl] Hs. split.
+ by destruct l.
+ apply Forall_app. split; [done | by constructor].
- split; [constructor | intros k l []].
- exact Hvalid. }
destruct Hd as [_ Hd].
intros Hkw.
assert (Hin : In kw
(sort_desc (fun a b => Qltb (score a) (score b))
 ((fun '(keyword, scores) =>
     {| term := keyword;
        score := (pysum scores
                  / inject_Z (Z.of_nat (length scores)))%Q |})
    <$> d))).
{ rewrite <- (take_drop top_n _). apply in_or_app. by left. }
apply sort_desc_In in Hin.
apply list_elem_of_In, list_elem_of_fmap in Hin as ([k l] & -> & Hin).
apply list_elem_of_In, Hd in Hin as [Hne Hl]. simpl.
by apply average_field_ok.
Qed.
End AggregateFacts.

Section SummaryFacts.
Import Config Scorer Main.
Context {Details : Type}.
Variable validation_error : pystr.

Lemma three_way_count {A} (p q r : A -> bool) (l : list A) :
(forall x, p x = true -> q x = false) ->
(forall x, p x = true -> r x = false) ->
(forall x, q x = true -> r x = false) ->
length (List.filter p l) + length (List.filter q l)
+ length (List.filter r l) <= length l
/\ (length (List.filter p l) + length (List.filter q l)
+ length (List.filter r l) = length l <->
forall x, In x l -> p x = true \/ q x = true \/ r x = true).
Proof.
intros Hpq Hpr Hqr. induction l as [|x l [IHle IHeq]].
{ simpl. split; [lia|]. split; [intros _ x [] | done]. }
cbn [List.filter].
assert (Hrest : (forall y, In y (x :: l) ->
       p y = true \/ q y = true \/ r y = true) <->
    (p x = true \/ q x = true \/ r x = true)
    /\ length (List.filter p l) + length (List.filter q l)
       + length (List.filter r l) = length l).
{ rewrite IHeq. split.
- intros Hall. split; [apply Hall; by left|].
intros y Hy. apply Hall. by right.
- intros [Hx Hall] y [<- | Hy]; auto. }
rewrite Hrest.
destruct (p x) eqn:Ep.
{ rewrite (Hpq x Ep), (Hpr x Ep). simpl. split; [lia|].
split; [intros; split; [auto | lia] | intros [_ ?]; lia]. }
destruct (q x) eqn:Eq.
{ rewrite (Hqr x Eq). simpl. split; [lia|].
split; [intros; split; [auto | lia] | intros [_ ?]; lia]. }
destruct (r x) eqn:Er; simpl.
{ split; [lia|].
split; [intros; split; [auto | lia] | intros [_ ?]; lia]. }
split; [lia|]. split; [lia|].
intros [[E | [E | E]] _]; discriminate E.
Qed.

(** The counts of the summary. [total_urls] is the number of analysed
pages; the three counts of [por_tipo] add up to at most that number,
and to exactly that number when, and only when, every page is typed
[ecommerce], [blog] or [mixto]: a page of another type is counted in
the total and under no type. Each list of top keywords has at most 20
entries. *)
Theorem domain_summary_counts
(url_results : list (URLAnalysisResponse (Details := Details))) :
let summary := _create_domain_summary url_results in
let counted :=
(fst (fst (por_tipo summary)) + snd (fst (por_tipo summary))
+ snd (por_tipo summary))%nat in
total_urls summary = length url_results
/\ counted <= total_urls summary
/\ (counted = total_urls summary <->
forall r, In r url_results ->
tipo r = py "ecommerce" \/ tipo r = py "blog" \/ tipo r = py "mixto")
/\ length (top_keywords_cliente summary) <= 20
/\ length (top_keywords_producto summary) <= 20
/\ length (top_keywords_generales summary) <= 20.
Proof.
intros summary counted. unfold counted, summary, _create_domain_summary.
cbn [total_urls por_tipo top_keywords_cliente top_keywords_producto
top_keywords_generales fst snd].
unfold count_tipo.
assert (Hne : forall a b : string, py a <> py b ->
forall x : URLAnalysisResponse (Details := Details),
str_eqb (tipo x) (py a) = true ->
str_eqb (tipo x) (py b) = false).
{ intros a b Hab x Ha. unfold str_eqb in *.
apply bool_decide_eq_true in Ha. apply bool_decide_eq_false.
congruence. }
destruct (three_way_count
(fun r : URLAnalysisResponse (Details := Details) =>
   str_eqb (tipo r) (py "ecommerce"))
(fun r => str_eqb (tipo r) (py "blog"))
(fun r => str_eqb (tipo r) (py "mixto")) url_results)
as [Hle Heq].
1-3: apply Hne; vm_compute; discriminate.
split; [done|]. split; [exact Hle|]. split.
- rewrite Heq. unfold str_eqb.
split; intros Hall r Hr; specialize (Hall r Hr);
rewrite ?bool_decide_eq_true in *; exact Hall.
- unfold get_top_keywords_by_bucket. rewrite !length_take. lia.
Qed.

Lemma analysed_pages (process_url : pystr -> gathered (Details := Details))
(urls_to_process : list pystr) :
let valid_results :=
omap (fun result => match result with Analysed r => Some r | _ => None end)
(process_url <$> urls_to_process) in
length valid_results <= length urls_to_process
/\ forall r, In r valid_results <->
exists u, In u urls_to_process /\ process_url u = Analysed r.
Proof.
induction urls_to_process as [|u l [IHlen IHin]];
cbn [fmap list_fmap omap list_omap].
{ split; [done|]. intros r. split; [done | by intros (u & [] & _)]. }
split.
- destruct (process_url u); simpl in *; lia.
- intros r. destruct (process_url u) as [r0| |] eqn:E.
+ split.
* intros [<- | Hr]; [exists u; split; [by left | done]|].
apply IHin in Hr as (u' & Hu' & Hr). exists u'. split; [by right|done].
* intros (u' & [<- | Hu'] & Hr).
-- left. congruence.
-- right. apply IHin. by exists u'.
+ rewrite IHin. split.
* intros (u' & Hu' & Hr). exists u'. split; [by right | done].
* intros (u' & [<- | Hu'] & Hr); [congruence|]. by exists u'.
+ rewrite IHin. split.
* intros (u' & Hu' & Hr). exists u'. split; [by right | done].
* intros (u' & [<- | Hu'] & Hr); [congruence|]. by exists u'.
Qed.

(** What a successful domain analysis answers: the response names the
requested domain, lists exactly the pages whose analysis succeeded (a
page that failed or raised is dropped), at least one and no more than
the URLs selected, and its summary counts the listed pages. *)
Theorem analyze_domain_response (request_domain : pystr)
(urls_to_process : list pystr)
(process_url : pystr -> gathered (Details := Details))
(response : DomainAnalysisResponse) :
analyze_domain validation_error request_domain urls_to_process process_url
= Return response ->
domain response = request_domain
/\ (forall r, In r (urls response) <->
exists u, In u urls_to_process /\ process_url u = Analysed r)
/\ 0 < length (urls response) <= length urls_to_process
/\ total_urls (resumen response) = length (urls response).
Proof.
unfold analyze_domain.
destruct (analysed_pages process_url urls_to_process) as [Hlen Hin].
destruct urls_to_process as [|u0 rest]; [done|].
cbv zeta in Hlen, Hin. revert Hlen Hin.
generalize (omap
(fun result => match result with Analysed r => Some r | _ => None end)
(process_url <$> u0 :: rest)).
intros valid Hlen Hin. destruct valid as [|v vs]; [done|].
intros [= <-]. cbn [domain urls resumen].
split; [done|]. split; [exact Hin|]. split; [simpl in *; lia | done].
Qed.
End SummaryFacts.

Lemma top_keywords_by_bucket_scores_witness :
  let page terms :=
    {| Scorer.b_cliente := terms; Scorer.b_producto_o_post := [];
       Scorer.b_generales_seo := [] |} in
  let pages :=
    [ page [ {| Scorer.term := py "acme"; Scorer.score := 0.8 |} ];
      page [ {| Scorer.term := py "acme"; Scorer.score := 0.6 |};
             {| Scorer.term := py "zapatos acme"; Scorer.score := 0.4 |} ] ] in
  forall kw,
    In kw (Main.get_top_keywords_by_bucket pages Scorer.cliente 20) ->
    Config.field_ok (Scorer.score kw).
Proof.
  intros page pages.
  apply (top_keywords_by_bucket_scores pages Scorer.cliente 20).
  intros bs kw Hbs Hkw.
  destruct Hbs as [<- | [<- | []]]; simpl in Hkw;
    repeat (destruct Hkw as [<- | Hkw]; [split; simpl; lra|]);
    destruct Hkw.
Defined.

Lemma analyze_domain_response_witness :
  let analysis :=
    {| Main.url := py "https://example.com/a"; Main.tipo := py "blog";
       Main.details := tt; Main.keywords := Scorer.empty_buckets |} in
  let process_url u :=
    if str_eqb u (py "https://example.com/a") then Main.Analysed analysis
    else Main.Failed in
  let response :=
    {| Main.domain := py "example.com";
       Main.resumen := Main._create_domain_summary [analysis];
       Main.urls := [analysis] |} in
  let selected := [py "https://example.com/a"; py "https://example.com/b"] in
  Main.domain response = py "example.com"
  /\ (forall r, In r (Main.urls response) <->
        exists u, In u selected /\ process_url u = Main.Analysed r)
  /\ 0 < length (Main.urls response) <= length selected
  /\ Main.total_urls (Main.resumen response) = length (Main.urls response).
Proof.
  intros analysis process_url response selected.
  apply (analyze_domain_response (Details := unit) [] (py "example.com")
           selected process_url response).
  vm_compute. reflexivity.
Defined.

(** ** NLP: merging the two providers *)

Section MergeFacts.
Import Config NLP.
Context `{Runtime} {Embedding : Type}.
Variable cosine_similarity : Embedding -> Embedding -> Q.
Variable similarity_threshold : Q.
Variable list_of_set : list pystr -> list pystr.
Variable sentence_transformer : option (pystr -> Embedding).

(** The key under which [_merge_keyword_results] groups a keyword. *)
Local Abbreviation group_key :=
(fun kw : Keyword => strip (str_lower (term kw))).
Local Abbreviation merge :=
(_merge_keyword_results cosine_similarity similarity_threshold list_of_set
sentence_transformer).
Local Abbreviation by_score :=
(fun x y : Keyword => (score y <= score x)%Q).

Lemma group_append_keys groups key kw k :
k ∈ fst <$> group_append groups key kw <-> k ∈ fst <$> groups \/ k = key.
Proof.
induction groups as [|[k' g] groups IH]; simpl.
{ rewrite list_elem_of_singleton, elem_of_nil. tauto. }
unfold str_eqb. case_bool_decide as E; simpl.
- subst k'. rewrite !elem_of_cons. tauto.
- rewrite !elem_of_cons, IH. tauto.
Qed.

Section Groups.
Variable member_ok : Keyword -> Prop.

(** Every group is filed under the key of its members, is not empty, and
holds only keywords that satisfy [member_ok]. *)
Local Abbreviation grouped :=
(fun groups : list (pystr * list Keyword) =>
NoDup (fst <$> groups)
/\ forall k g, In (k, g) groups ->
g <> [] /\ Forall (fun kw => group_key kw = k /\ member_ok kw) g).

Lemma group_append_grouped groups kw :
grouped groups -> member_ok kw ->
grouped (group_append groups (group_key kw) kw).
Proof.
intros [Hnd Hg] Hkw. induction groups as [|[k' g] groups IH]; simpl.
{ split; [apply NoDup_singleton|].
intros k g [[= <- <-] | []]. split; [done|]. by repeat constructor. }
simpl in Hnd. apply NoDup_cons in Hnd as [Hk' Hnd].
unfold str_eqb. case_bool_decide as E; simpl.
- subst k'. split; [by apply NoDup_cons|].
intros k g0 [[= <- <-] | Hin]; [|apply Hg; by right].
destruct (Hg _ g (or_introl eq_refl)) as [Hne Hall]. split.
+ by destruct g.
+ apply Forall_app. split; [done|]. by repeat constructor.
- destruct IH as [IHnd IHg]; [done | |].
{ intros k g0 Hin. apply Hg. by right. }
split.
+ apply NoDup_cons. split; [|done].
rewrite group_append_keys. intros [Hin | ->]; done.
+ intros k g0 [[= <- <-] | Hin]; [apply Hg; by left | by apply IHg].
Qed.

Lemma exact_groups_grouped (kws : list Keyword) : forall groups,
grouped groups -> Forall member_ok kws ->
grouped (fold_left
(fun groups kw => group_append groups (group_key kw) kw)
kws groups).
Proof.
induction kws as [|kw kws IH]; intros groups Hg Hk; [done|].
apply Forall_cons in Hk as [Hkw Hk]. cbn [fold_left]. apply IH; [|done].
by apply group_append_grouped.
Qed.
End Groups.

Lemma group_append_length groups key kw :
length (group_append groups key kw) <= S (length groups).
Proof.
induction groups as [|[k g] groups IH]; simpl; [lia|].
destruct (str_eqb k key); simpl; lia.
Qed.

Lemma exact_groups_length (kws : list Keyword) : forall groups,
length (fold_left
(fun groups kw => group_append groups (group_key kw) kw)
kws groups) <= length groups + length kws.
Proof.
induction kws as [|kw kws IH]; intros groups; simpl; [lia|].
etransitivity; [apply IH|].
pose proof (group_append_length groups (group_key kw) kw). lia.
Qed.

(** The keyword that stands for a group. *)
Local Abbreviation merged_of :=
(fun '((_, group) : pystr * list Keyword) =>
match group with
| [kw] => kw
| _ =>
{| term := default [] (term <$> head group);
score := mean (score <$> group);
source := join (py "+") (list_of_set (source <$> group)) |}
end).

Lemma merged_of_group (member_ok : Keyword -> Prop) k g :
g <> [] -> Forall (fun kw => group_key kw = k /\ member_ok kw) g ->
group_key (merged_of (k, g)) = k
/\ exists kw, In kw g /\ term (merged_of (k, g)) = term kw.
Proof.
intros Hne Hg. destruct g as [|kw [|kw' g]]; [done | |].
- apply Forall_cons in Hg as [[Hk _] _]. split; [done|].
exists kw. split; [by left | done].
- apply Forall_cons in Hg as [[Hk _] _]. split; [done|].
exists kw. split; [by left | done].
Qed.

Lemma merged_keys (groups : list (pystr * list Keyword)) :
(forall k g, In (k, g) groups ->
g <> [] /\ Forall (fun kw => group_key kw = k /\ True) g) ->
group_key <$> (merged_of <$> groups) = fst <$> groups.
Proof.
induction groups as [|[k g] groups IH]; intros Hg; [done|].
rewrite !fmap_cons. f_equal.
- destruct (Hg k g (or_introl eq_refl)) as [Hne Hall].
by destruct (merged_of_group (fun _ => True) k g Hne Hall).
- apply IH. intros k' g' Hin. apply Hg. by right.
Qed.

Lemma merge_shape (yake_results keybert_results : list Keyword) :
let merged := merge yake_results keybert_results in
List.NoDup (group_key <$> merged)
/\ StronglySorted by_score merged
/\ length merged <= length yake_results + length keybert_results
/\ (forall kw, In kw merged ->
exists kw', In kw' (yake_results ++ keybert_results)
        /\ term kw = term kw').
Proof.
intros merged. unfold merged, _merge_keyword_results.
set (all := yake_results ++ keybert_results).
assert (Hlen : length all = length yake_results + length keybert_results)
by apply length_app.
destruct all as [|kw0 rest] eqn:Hall.
{ split; [constructor|]. split; [constructor|]. split; [simpl; lia|].
by intros kw []. }
rewrite <- Hall in *. clear Hall kw0 rest.
set (groups := fold_left _ all []).
set (lt := fun a b : Keyword => Qltb (score a) (score b)).
assert (Hgr : NoDup (fst <$> groups)
    /\ forall k g, In (k, g) groups ->
         g <> [] /\ Forall (fun kw => group_key kw = k
                                      /\ In kw all) g).
{ apply (exact_groups_grouped (fun kw => In kw all)).
- split; [constructor | intros k g []].
- apply List.Forall_forall. auto. }
destruct Hgr as [Hnd Hgr].
assert (Hkeys : group_key <$> (merged_of <$> groups) = fst <$> groups).
{ apply merged_keys. intros k g Hin. destruct (Hgr k g Hin) as [Hne Hg].
split; [done|]. eapply Forall_impl; [exact Hg|]. simpl. tauto. }
set (final := _deduplicate_by_similarity _ _ _ (merged_of <$> groups)).
assert (Hsl : sublist final (merged_of <$> groups))
by apply dedup_result_sublist.
assert (Hsub : sort_desc lt final ⊆+ merged_of <$> groups).
{ etransitivity; [apply Permutation_submseteq, sort_desc_perm|].
by apply sublist_submseteq. }
split; [|split; [|split]].
- apply NoDup_ListNoDup.
apply (fmap_submseteq group_key) in Hsub.
apply submseteq_sublist_r in Hsub as (l2 & Hperm & Hsl2).
rewrite Hkeys in Hsl2. rewrite Hperm. by eapply sublist_NoDup.
- apply (sort_desc_sorted score).
- rewrite sort_desc_length.
etransitivity; [exact (sublist_length _ _ Hsl)|].
rewrite length_fmap, <- Hlen. unfold groups.
etransitivity; [apply exact_groups_length | simpl; lia].
- intros kw Hkw. apply list_elem_of_In in Hkw.
eapply elem_of_submseteq in Hkw; [|exact Hsub].
apply list_elem_of_fmap in Hkw as ([k g] & -> & Hin).
apply list_elem_of_In in Hin. destruct (Hgr k g Hin) as [Hne Hg].
destruct (merged_of_group (fun kw => In kw all) k g Hne Hg)
as [_ (kw & Hkw & Hterm)].
exists kw. split; [|done].
rewrite List.Forall_forall in Hg. by apply Hg.
Qed.

(** What the merge returns: no two keywords with the same term up to case
and surrounding blanks, the highest score first, no more keywords than
the providers gave, and every term the term of a provider's
keyword. *)
Theorem merge_keyword_results_shape
(yake_results keybert_results : list Keyword) :
let merged := merge yake_results keybert_results in
List.NoDup (group_key <$> merged)
/\ StronglySorted by_score merged
/\ length merged <= length yake_results + length keybert_results
/\ (forall kw, In kw merged ->
exists kw', In kw' (yake_results ++ keybert_results)
        /\ term kw = term kw').
Proof. apply merge_shape. Qed.

(** Averaging the scores of a group keeps them valid: when the providers'
scores lie in [[0, 1]], so do those of the merged keywords. *)
Theorem merge_keyword_results_scores
(yake_results keybert_results : list Keyword) :
(forall kw, In kw (yake_results ++ keybert_results) ->
field_ok (score kw)) ->
forall kw, In kw (merge yake_results keybert_results) ->
field_ok (score kw).
Proof.
intros Hvalid kw. unfold _merge_keyword_results.
destruct (yake_results ++ keybert_results) as [|kw0 rest] eqn:Hall;
[by intros []|].
rewrite <- Hall in *. clear Hall kw0 rest.
set (groups := fold_left _ _ []).
assert (Hgr : NoDup (fst <$> groups)
    /\ forall k g, In (k, g) groups ->
         g <> [] /\ Forall (fun kw => group_key kw = k
                                      /\ field_ok (score kw)) g).
{ apply (exact_groups_grouped (fun kw => field_ok (score kw))).
- split; [constructor | intros k g []].
- by apply List.Forall_forall. }
destruct Hgr as [_ Hgr].
intros Hkw. apply sort_desc_In in Hkw. apply list_elem_of_In in Hkw.
eapply elem_of_sublist in Hkw; [|apply dedup_result_sublist].
apply list_elem_of_fmap in Hkw as ([k g] & -> & Hin).
apply list_elem_of_In in Hin. destruct (Hgr k g Hin) as [Hne Hg].
assert (Hscores : Forall field_ok (score <$> g)).
{ apply Forall_fmap. eapply Forall_impl; [exact Hg|]. simpl. tauto. }
destruct g as [|kw1 [|kw2 g]]; [done | |].
- apply Forall_cons in Hg as [[_ Hok] _]. exact Hok.
- cbn [score]. unfold mean. by apply average_field_ok.
Qed.

Section Extract.
Variable normalize_text : pystr -> option pystr.
Variable _extract_with_yake : pystr -> option (list Keyword).
Variable _extract_with_keybert : pystr -> option (list Keyword).

(** Whatever the text and whatever the providers return or raise,
[extract_keywords] answers at most [max_keywords] keywords, the highest
score first, no two of them with the same term up to case and
surrounding blanks. *)
Theorem extract_keywords_shape (text : pystr) (max_keywords : nat) :
let keywords :=
fst (extract_keywords cosine_similarity similarity_threshold
normalize_text _extract_with_yake _extract_with_keybert
list_of_set sentence_transformer text max_keywords) in
length keywords <= max_keywords
/\ StronglySorted by_score keywords
/\ List.NoDup (group_key <$> keywords).
Proof.
intros keywords. unfold keywords, extract_keywords.
destruct (negb (truthy text) || _);
[cbn [fst]; split; [simpl; lia | split; constructor]|].
destruct (normalize_text text) as [normalized_text|];
[|cbn [fst]; split; [simpl; lia | split; constructor]].
cbn [fst].
destruct (merge_shape (default [] (_extract_with_yake normalized_text))
(default [] (_extract_with_keybert normalized_text)))
as (Hnd & Hsorted & _ & _).
split; [rewrite length_take; lia|]. split.
- by apply take_sorted.
- apply NoDup_ListNoDup. apply NoDup_ListNoDup in Hnd.
pose proof (fmap_sublist group_key _ _
(sublist_take (merge (default [] (_extract_with_yake normalized_text))
(default [] (_extract_with_keybert normalized_text)))
max_keywords)) as Hsl.
by eapply sublist_NoDup.
Qed.
End Extract.
End MergeFacts.

Lemma merge_keyword_results_scores_witness :
  let yake_results := [NLP.best_laptop; NLP.red_shoes] in
  let keybert_results :=
    [NLP.top_laptop;
     {| NLP.term := py "Red Shoes "; NLP.score := 0.7;
        NLP.source := py "keybert" |}] in
  Forall (fun kw => Config.field_ok (NLP.score kw))
    (NLP._merge_keyword_results (H := ascii_runtime)
       NLP.laptop_similarity 0.85 (fun l => l) (Some (fun t => t))
       yake_results keybert_results).
Proof.
  intros yake_results keybert_results. apply List.Forall_forall.
  apply (merge_keyword_results_scores (H := ascii_runtime)).
  intros kw Hkw. simpl in Hkw.
  repeat (destruct Hkw as [<- | Hkw]; [split; simpl; lra|]).
  destruct Hkw.
Defined.



(** ** Sitemap: which records are candidates *)

Section RecencyFacts.
Import Sitemap.
Context `{Runtime}.

(** When the dates can be compared with the clock and at least [max_urls]
records were modified in the last five days, only such records are
selected: a page that has not changed recently is never returned,
however relevant. *)
Theorem select_intelligent_urls_only_recent (now : Z) (urls : list UrlData)
(domain : pystr) (max_urls : nat) :
all_naive urls ->
List.NoDup (url <$> urls) ->
max_urls <= length (List.filter (recentb now) urls) ->
forall x, In x (_select_intelligent_urls now urls domain max_urls) ->
exists u, In u urls /\ url u = x /\ recentb now u = true.
Proof.
intros Hnaive Hnd Hmany x.
unfold _select_intelligent_urls, urls_to_categorize.
rewrite recent_filter_naive by done. simpl.
apply Nat.ltb_ge in Hmany as ->.
pose proof (filter_sublist (recentb now) urls) as Hsl.
destruct (select_by_categories_budget
    (List.filter (recentb now) urls) domain max_urls)
as (_ & _ & Hin).
{ pose proof (fmap_sublist url _ _ Hsl) as Hsl'.
apply NoDup_ListNoDup in Hnd. apply NoDup_ListNoDup.
by eapply sublist_NoDup. }
intros Hx. apply Hin, in_map_iff in Hx as (u & Hu & Hfilter).
apply filter_In in Hfilter as [Hin' Hrecent]. by exists u.
Qed.
End RecencyFacts.

Lemma products_and_posts_naive :
  Sitemap.all_naive Sitemap.products_and_posts.
Proof.
  intros u d Hu Hd. each_record Hu; vm_compute in Hd;
    injection Hd as <-; reflexivity.
Qed.

Lemma select_intelligent_urls_only_recent_witness :
  let urls := Sitemap.products_and_posts in
  2 <= length (List.filter (Sitemap.recentb Sitemap.noon) urls)
  /\ Forall
       (fun x => exists u, In u urls /\ Sitemap.url u = x
                           /\ Sitemap.recentb Sitemap.noon u = true)
       (Sitemap._select_intelligent_urls (H := ascii_runtime) Sitemap.noon
          urls (py "https://example.com") 2).
Proof.
  intros urls. split; [vm_compute; lia|].
  apply List.Forall_forall.
  apply (select_intelligent_urls_only_recent (H := ascii_runtime)).
  - exact products_and_posts_naive.
  - vm_compute; distinct_strings.
  - vm_compute; lia.
Defined.

Lemma select_intelligent_urls_few_recent_witness :
  let urls := Sitemap.products_and_posts in
  let domain := py "https://example.com" in
  Sitemap._select_intelligent_urls (H := ascii_runtime) Sitemap.noon urls
    domain 4 =
  Sitemap._select_by_categories
    (Sitemap._categorize_urls (H := ascii_runtime) urls domain) 4.
Proof.
  intros urls domain.
  apply (select_intelligent_urls_few_recent (H := ascii_runtime)).
  - exact products_and_posts_naive.
  - vm_compute; lia.
Defined.

Lemma select_intelligent_urls_aware_witness :
  Sitemap._select_intelligent_urls (H := ascii_runtime) Sitemap.noon
    (Sitemap.zoned true) (py "https://example.com") 2 =
  Sitemap._select_by_relevance (Sitemap.zoned true) 2.
Proof.
  apply (select_intelligent_urls_aware (H := ascii_runtime) Sitemap.noon
           (Sitemap.zoned true) (py "https://example.com") 2
           (Sitemap.make_url_data (H := ascii_runtime)
              (py "https://example.com/product/a")
              (Some {| Sitemap.micros := Sitemap.noon; Sitemap.aware := true |})
              0.9 (py "monthly"))
           {| Sitemap.micros := Sitemap.noon; Sitemap.aware := true |}).
  - left. vm_compute; reflexivity.
  - vm_compute; reflexivity.
  - reflexivity.
Defined.

(** ** Fetcher: the spacing the rate limiter enforces *)

Section RateLimitFacts.
Import RateLimit.
Variable netloc : pystr -> pystr.

(** No recorded request lies in the future. *)
Local Abbreviation stamped :=
(fun st : state =>
forall d t, last_request_time st !! d = Some t -> (t <= clock st)%Q).

Lemma rate_limit_step (url : pystr) (late : Q) (st : state) :
(0 <= late)%Q -> stamped st ->
(clock st <= clock (_rate_limit netloc url late st))%Q
/\ stamped (_rate_limit netloc url late st)
/\ last_request_time (_rate_limit netloc url late st) !! netloc url
= Some (clock (_rate_limit netloc url late st))
/\ (forall d, d <> netloc url ->
  last_request_time (_rate_limit netloc url late st) !! d
  = last_request_time st !! d)
/\ (forall t0, last_request_time st !! netloc url = Some t0 ->
  (t0 + 1 <= clock (_rate_limit netloc url late st))%Q).
Proof.
intros Hlate Hst. unfold _rate_limit.
set (st' := match last_request_time st !! netloc url with
        | Some last => _
        | None => st
        end).
assert (Hst' : (clock st <= clock st')%Q
           /\ last_request_time st' = last_request_time st
           /\ forall t0, last_request_time st !! netloc url = Some t0 ->
                (t0 + 1 <= clock st')%Q).
{ unfold st'. destruct (last_request_time st !! netloc url) as [last|] eqn:E.
- destruct (Qltb (clock st - last) 1) eqn:Hlt.
+ apply Qltb_true in Hlt. simpl. split; [lra|]. split; [done|].
  intros t0 [= <-]. lra.
+ apply Qltb_false in Hlt. split; [lra|]. split; [done|].
  intros t0 [= <-]. lra.
- split; [lra|]. split; [done|]. by intros t0. }
destruct Hst' as (Hclock & Hlast & Hgap). cbn [clock last_request_time].
rewrite Hlast. split; [done|]. split; [|split; [|split]].
- intros d t. destruct (decide (d = netloc url)) as [-> | Hd].
+ rewrite lookup_insert_eq. intros [= <-]. lra.
+ rewrite lookup_insert_ne by done. intros Ht.
specialize (Hst d t Ht). lra.
- by rewrite lookup_insert_eq.
- intros d Hd. by rewrite lookup_insert_ne.
- exact Hgap.
Qed.

Lemma run_after (steps : list step) : forall st,
Forall well_timed steps -> stamped st ->
forall d t, In (d, t) (run netloc steps st) ->
(clock st <= t)%Q
/\ forall t0, last_request_time st !! d = Some t0 -> (t0 + 1 <= t)%Q.
Proof.
induction steps as [|s steps IH]; intros st Hsteps Hst d t Hin; [done|].
apply Forall_cons in Hsteps as [Hs Hsteps].
destruct s as [seconds | url late]; simpl in Hs, Hin.
- set (st' := {| clock := clock st + seconds;
             last_request_time := last_request_time st |}) in *.
assert (Hst' : stamped st').
{ intros d' t' Ht'. specialize (Hst d' t' Ht'). simpl in *. lra. }
destruct (IH st' Hsteps Hst' d t Hin) as [Hclock Hgap].
simpl in *. split; [lra|]. exact Hgap.
- destruct (rate_limit_step url late st Hs Hst)
as (Hclock & Hst' & Hnew & Hold & Hgap).
destruct Hin as [[= <- <-] | Hin]; [by split|].
destruct (IH _ Hsteps Hst' d t Hin) as [Hclock' Hgap'].
split; [lra|]. intros t0 Ht0.
destruct (decide (d = netloc url)) as [-> | Hd].
+ specialize (Hgap' _ Hnew). specialize (Hst _ _ Ht0). lra.
+ apply Hgap'. by rewrite Hold.
Qed.

Lemma run_spacing (steps : list step) : forall st,
Forall well_timed steps -> stamped st ->
ForallOrdPairs (fun a b => fst a = fst b -> (snd a + 1 <= snd b)%Q)
(run netloc steps st).
Proof.
induction steps as [|s steps IH]; intros st Hsteps Hst; [constructor|].
pose proof Hsteps as Hall. apply Forall_cons in Hsteps as [Hs Hsteps].
destruct s as [seconds | url late]; simpl in Hs |- *.
- apply IH; [done|]. intros d t Ht. specialize (Hst d t Ht). simpl in *. lra.
- destruct (rate_limit_step url late st Hs Hst)
as (Hclock & Hst' & Hnew & Hold & Hgap).
constructor; [|by apply IH].
apply List.Forall_forall. intros [d t] Hin. simpl. intros <-.
destruct (run_after steps _ Hsteps Hst' _ _ Hin) as [_ Hgap'].
by apply Hgap'.
Qed.

(** On a fetcher that one task uses at a time, two requests to the same
host leave the limiter at least one second apart, whatever the URLs
and however little time passes between the calls. *)
Theorem rate_limit_spacing (steps : list step) (now : Q) :
Forall well_timed steps ->
ForallOrdPairs (fun a b => fst a = fst b -> (snd a + 1 <= snd b)%Q)
(run netloc steps (fresh now)).
Proof.
intros Hsteps. apply run_spacing; [done|]. intros d t. simpl.
by rewrite lookup_empty.
Qed.
End RateLimitFacts.

Lemma rate_limit_spacing_witness :
  ForallOrdPairs (fun a b => fst a = fst b -> (snd a + 1 <= snd b)%Q)
    (RateLimit.run RateLimit.host_of
       [ RateLimit.Request (py "example.com/a") 0;
         RateLimit.Elapse 0.25;
         RateLimit.Request (py "example.com/b") 0;
         RateLimit.Request (py "other.org/x") 0.1 ]
       (RateLimit.fresh 100)).
Proof.
  apply (rate_limit_spacing RateLimit.host_of).
  repeat constructor; simpl; lra.
Defined.
(** ** Sitemap: discovery and the list handed to the analysis *)

Section DiscoveryFacts.
Import Sitemap Discovery.
Context `{Runtime}.
Variable urljoin : pystr -> pystr -> pystr.
Variable fetch_url : pystr -> fetched.
Variable internal_links : pystr -> pystr -> option (list pystr).
Variable parse_sitemap_with_dates : pystr -> list UrlData.

Lemma try_candidates_first (l : list pystr) : forall i c,
l !! i = Some c ->
is_200 (fetch_url c) = true ->
(forall j c', j < i -> l !! j = Some c' -> is_200 (fetch_url c') = false) ->
try_candidates fetch_url l = (Some c, take (S i) l).
Proof.
induction l as [|x l IH]; intros i c Hi Hc Hbefore; [done|].
destruct i as [|i]; simpl in Hi.
- injection Hi as ->. simpl. by rewrite Hc.
- simpl. rewrite (Hbefore 0 x) by first [lia | done].
rewrite (IH i c Hi Hc); [done|].
intros j c' Hj Hc'. apply (Hbefore (S j)); [lia | done].
Qed.

Lemma try_candidates_none (l : list pystr) :
(forall c, In c l -> is_200 (fetch_url c) = false) ->
try_candidates fetch_url l = (None, l).
Proof.
induction l as [|x l IH]; intros Hall; [done|]. simpl.
rewrite (Hall x) by (by left). rewrite IH; [done|].
intros c Hc. apply Hall. by right.
Qed.

Lemma try_candidates_fetches (l : list pystr) :
length (snd (try_candidates fetch_url l)) <= length l.
Proof.
induction l as [|x l IH]; simpl; [done|].
destruct (is_200 (fetch_url x)); simpl; [lia|].
destruct (try_candidates fetch_url l). simpl in *. lia.
Qed.

(** The order of the discovery. The five usual locations are fetched in
their fixed order and the first that answers 200 is the sitemap;
nothing is fetched after it. [robots.txt] is fetched only when none of
the five answers 200, and it is the sixth and last fetch. *)
Theorem discover_sitemap_order (base_url : pystr) :
let candidates := urljoin base_url <$> sitemap_paths in
let discovery := discover_sitemap urljoin fetch_url base_url in
(forall i c,
candidates !! i = Some c ->
is_200 (fetch_url c) = true ->
(forall j c', j < i -> candidates !! j = Some c' ->
  is_200 (fetch_url c') = false) ->
discovery = (Some c, take (S i) candidates))
/\ ((forall c, In c candidates -> is_200 (fetch_url c) = false) ->
snd discovery = candidates ++ [urljoin base_url (py "/robots.txt")])
/\ length (snd discovery) <= 6.
Proof.
intros candidates discovery. unfold discovery, discover_sitemap.
fold candidates. split; [|split].
- intros i c Hi Hc Hbefore.
by rewrite (try_candidates_first candidates i c Hi Hc Hbefore).
- intros Hall. rewrite (try_candidates_none candidates Hall).
unfold _find_sitemap_in_robots. reflexivity.
- pose proof (try_candidates_fetches candidates) as Hlen.
assert (Hfive : length candidates = 5) by (unfold candidates; by rewrite length_fmap).
destruct (try_candidates fetch_url candidates) as [[s|] fetches];
simpl in *; [lia|].
rewrite length_app. simpl. lia.
Qed.

Lemma crawl_loop_spec (max_urls : nat) (links : list pystr) : forall urls,
crawl_loop max_urls links urls =
urls ++ (link_data <$> take (max_urls - length urls) links).
Proof.
induction links as [|link links IH]; intros urls; simpl.
{ by rewrite take_nil, app_nil_r. }
destruct (max_urls <=? length urls)%nat eqn:E.
- apply Nat.leb_le in E. replace (max_urls - length urls) with 0 by lia.
by rewrite app_nil_r.
- apply Nat.leb_gt in E. rewrite IH, length_app. simpl.
replace (max_urls - length urls) with (S (max_urls - (length urls + 1)))
by lia.
simpl. by rewrite <- app_assoc.
Qed.

Lemma fill_remaining_In (max_urls : nat) (l : list UrlData) : forall sel x,
In x (fill_remaining max_urls l sel) -> In x sel \/ In x (url <$> l).
Proof.
unfold fill_remaining.
induction l as [|u l IH]; intros sel x Hx; simpl in *; [by left|].
apply IH in Hx as [Hx | Hx]; [|right; by right].
destruct (negb _ && _); [|by left].
apply in_app_or in Hx as [Hx | [<- | []]]; [by left | right; by left].
Qed.

Lemma select_by_categories_In (urls : list UrlData) (domain : pystr)
(max_urls : nat) (x : pystr) :
In x (_select_by_categories (_categorize_urls urls domain) max_urls) ->
In x (url <$> urls).
Proof.
unfold _select_by_categories. intros Hx.
assert (Hx' : In x (take max_urls
      (if (length (select_quotas (_categorize_urls urls domain) max_urls)
           <? max_urls)%nat
       then fill_remaining max_urls
              (sort_desc relevance_lt
                 (concat (snd <$> _categorize_urls urls domain)))
              (select_quotas (_categorize_urls urls domain) max_urls)
       else select_quotas (_categorize_urls urls domain) max_urls)))
by exact Hx.
clear Hx. apply list_elem_of_In in Hx'.
eapply elem_of_sublist in Hx'; [|apply sublist_take].
apply list_elem_of_In in Hx'.
destruct (select_quotas_submseteq urls domain max_urls) as [Hsub _].
assert (Hquota : In x (select_quotas (_categorize_urls urls domain) max_urls)
             -> In x (url <$> urls)).
{ intros Hq. apply list_elem_of_In.
eapply elem_of_submseteq; [|exact Hsub]. by apply list_elem_of_In. }
destruct (_ <? _)%nat; [|by apply Hquota].
apply fill_remaining_In in Hx' as [Hq | Hall]; [by apply Hquota|].
apply in_map_iff in Hall as (u & <- & Hu). apply in_map.
apply sort_desc_In in Hu.
eapply Permutation_in; [apply concat_categorize | exact Hu].
Qed.

Lemma select_intelligent_urls_In (now : Z) (urls : list UrlData)
(domain : pystr) (max_urls : nat) (x : pystr) :
In x (_select_intelligent_urls now urls domain max_urls) ->
In x (url <$> urls).
Proof.
unfold _select_intelligent_urls, urls_to_categorize.
destruct (recent_filter _ urls) as [recent|] eqn:Hrecent; simpl.
- apply recent_filter_Some in Hrecent as ->.
destruct (_ <? _)%nat; intros Hx; apply select_by_categories_In in Hx;
[done|].
apply in_map_iff in Hx as (u & <- & Hu). apply in_map.
by apply filter_In in Hu as [Hu _].
- unfold _select_by_relevance. intros Hx.
apply in_map_iff in Hx as (u & <- & Hu). apply in_map.
apply (sort_desc_In relevance_lt).
rewrite <- (take_drop max_urls (sort_desc relevance_lt urls)).
apply in_or_app. by left.
Qed.

(** What [get_intelligent_urls] hands to the analysis: never more than
[max_urls] URLs, whether they come from the sitemap or from the crawl
of the home page and whatever the fetches answer; each of them is a
URL of the sitemap found or, when there is no sitemap or it lists
nothing, one of the first [max_urls] internal links of the home
page. *)
Theorem get_intelligent_urls_bounded (now : Z) (domain : pystr)
(max_urls : nat) :
let selected :=
get_intelligent_urls urljoin fetch_url internal_links
parse_sitemap_with_dates now domain max_urls in
length selected <= max_urls
/\ forall x, In x selected ->
 (exists sitemap_url,
    fst (discover_sitemap urljoin fetch_url domain) = Some sitemap_url
    /\ In x (url <$> parse_sitemap_with_dates sitemap_url))
 \/ (exists status_code text links,
       fetch_url domain = Response status_code text
       /\ internal_links text domain = Some links
       /\ In x (take max_urls links)).
Proof.
intros selected. unfold selected, get_intelligent_urls.
set (fallback := link_url <$> take max_urls (crawl_fallback _ _ _ _)).
assert (Hfallback :
length fallback <= max_urls
/\ forall x, In x fallback ->
   exists status_code text links,
     fetch_url domain = Response status_code text
     /\ internal_links text domain = Some links
     /\ In x (take max_urls links)).
{ unfold fallback. split; [rewrite length_fmap, length_take; lia|].
intros x Hx. apply in_map_iff in Hx as (r & <- & Hr).
assert (Hr' : In r (crawl_fallback fetch_url internal_links domain max_urls)).
{ rewrite <- (take_drop max_urls (crawl_fallback _ _ _ _)).
apply in_or_app. by left. }
clear Hr. unfold crawl_fallback in Hr'.
destruct (fetch_url domain) as [status_code text| |]; [|done..].
destruct (internal_links text domain) as [links|] eqn:Hlinks; [|done].
rewrite crawl_loop_spec in Hr'. simpl in Hr'.
apply in_map_iff in Hr' as (link & <- & Hlink).
exists status_code, text, links. split; [done|]. split; [done|].
simpl. rewrite <- (take_drop (max_urls - 0) (take max_urls links)).
apply in_or_app. by left. }
destruct Hfallback as [Hlen Hin].
destruct (fst (discover_sitemap urljoin fetch_url domain))
as [sitemap_url|] eqn:Hfound; [|split; [done | right; by apply Hin]].
destruct (truthy sitemap_url); [|split; [done | right; by apply Hin]].
destruct (parse_sitemap_with_dates sitemap_url) as [|u urls] eqn:Hparse;
[split; [done | right; by apply Hin]|].
split; [apply select_intelligent_urls_length|].
intros x Hx. left. exists sitemap_url. split; [done|].
rewrite Hparse. by eapply select_intelligent_urls_In.
Qed.
End DiscoveryFacts.

(** ** Main: the handler of the summary is not reached *)

Section HandlerFacts.
Import Config Scorer Main Summary.
Context {Details : Type}.

Lemma validate_all_valid (kws : list KeywordScore) :
(forall kw, In kw kws -> field_ok (score kw)) ->
validate_all kws = Some kws.
Proof.
unfold validate_all. induction kws as [|kw kws IH]; intros Hall; [done|].
assert (Hkw : validate kw = Some kw).
{ destruct (Hall kw (or_introl eq_refl)) as [H0 H1].
  unfold validate, Qleb.
  apply Qle_bool_iff in H0 as ->. by apply Qle_bool_iff in H1 as ->. }
cbn [mapM]. rewrite Hkw. cbn [mbind option_bind].
rewrite IH; [done|]. intros kw' Hin. apply Hall. by right.
Qed.

(** The scores of analysed pages are in [[0, 1]], and so are their
  averages: every [KeywordScore] of the summary passes validation, the
  handler of [_create_domain_summary] is never taken, and the summary is
  the one the [try] block computes, with its counts and its top
  keywords. *)
Theorem create_domain_summary_no_handler
  (url_results : list (URLAnalysisResponse (Details := Details))) :
(forall r, In r url_results -> valid_page r) ->
create_domain_summary url_results = _create_domain_summary url_results
/\ forall b kw,
     In kw (get_top_keywords_by_bucket (keywords <$> url_results) b 20) ->
     field_ok (score kw).
Proof.
intros Hvalid.
assert (Hscores : forall b kw,
          In kw (get_top_keywords_by_bucket (keywords <$> url_results) b 20)
          -> field_ok (score kw)).
{ intros b. apply top_keywords_by_bucket_scores.
  intros bs kw Hbs Hkw. apply in_map_iff in Hbs as (r & <- & Hr).
  by apply (Hvalid r Hr b). }
split; [|exact Hscores].
unfold create_domain_summary, summary_body.
rewrite !validate_all_valid by apply Hscores. reflexivity.
Qed.
End HandlerFacts.

Lemma create_domain_summary_no_handler_witness :
  let page tipo_ terms :=
    {| Main.url := py "https://example.com/a"; Main.tipo := py tipo_;
       Main.details := tt;
       Main.keywords :=
         {| Scorer.b_cliente := terms; Scorer.b_producto_o_post := [];
            Scorer.b_generales_seo := [] |} |} in
  let url_results :=
    [ page "blog"%string [ {| Scorer.term := py "acme"; Scorer.score := 0.8 |} ];
      page "ecommerce"%string
        [ {| Scorer.term := py "acme"; Scorer.score := 0.6 |};
          {| Scorer.term := py "zapatos acme"; Scorer.score := 0.4 |} ] ] in
  Summary.create_domain_summary url_results
  = Main._create_domain_summary url_results
  /\ forall b kw,
       In kw (Main.get_top_keywords_by_bucket
                (Main.keywords <$> url_results) b 20) ->
       Config.field_ok (Scorer.score kw).
Proof.
  intros page url_results.
  apply (create_domain_summary_no_handler (Details := unit)).
  intros r Hr b kw Hkw.
  destruct Hr as [<- | [<- | []]]; destruct b; simpl in Hkw;
    repeat (destruct Hkw as [<- | Hkw]; [split; simpl; lra|]);
    destruct Hkw.
Defined.
